(** * DDR-Tracker: the temporal landmark pipeline of [Model/DataCollection.py]

    A shallow embedding of the data-collection script: the per-frame
    landmark dictionaries, the moving-average filter [smooth_landmarks],
    the gap filler [interpolate_missing_frames], the filename labeller
    [extract_dance_name] and the per-video driver [process_video].

    Modelling conventions.
    - Python [int] is [Z]; [//] and [%] are [Z.div] and [Z.modulo], which
      round like Python's for a non-zero divisor.
    - Python [float] arithmetic is abstract: the class [PyFloat] gives the
      four operations and the conversion from [int], and no algebraic law
      is assumed of them.  A result that needs a law takes it as a
      hypothesis (dividing by one).  Two instances run the definitions:
      [binary64], the IEEE 754 doubles that Python floats are, and
      [Q_float], exact arithmetic on the rationals, which rounds nothing
      and therefore says nothing about the values the program computes.
    - Python [str] is [string]; [lower] is [str.lower] on ASCII text, and
      the results that range over arbitrary names and vocabularies assume
      ASCII text ([is_ascii]).
    - A frame dictionary is a record holding the three metadata entries
      and a [gmap] from the ['landmark_{idx}_{coord}'] keys to floats; a
      missing key raises [KeyError] as subscripting does in Python.
    - Exceptions are values of the error monad [result].
    - The video capture and the pose detector are external: a [Video]
      lists, per decodable frame, what the detector answers when that frame
      is submitted.  The loop state carries two observation fields,
      [read_calls] and [submitted], that log the calls made on them. *)

From Stdlib Require Import ZArith QArith String Ascii List Lia DecimalString DecimalNat.
From Stdlib Require PrimFloat FloatOps SpecFloat Uint63.
From stdpp Require Import base option list list_numbers sorting gmap strings.

Close Scope Q_scope.
Local Open Scope string_scope.
Local Open Scope list_scope.
Local Open Scope Z_scope.

(** ** Exceptions *)

Inductive exn : Type :=
  | ZeroDivisionError
  | ValueError
  | IndexError
  | KeyError (key : string).

Inductive result (A : Type) : Type :=
  | Ok (a : A)
  | Raise (e : exn).
Arguments Ok {A} a.
Arguments Raise {A} e.

#[global] Instance result_ret : MRet result := fun _ a => Ok a.
#[global] Instance result_bind : MBind result := fun _ _ f m =>
  match m with Ok a => f a | Raise e => Raise e end.
#[global] Instance result_fmap : FMap result := fun _ _ f m =>
  match m with Ok a => Ok (f a) | Raise e => Raise e end.

(** [for a in l: acc = f(acc, a)], stopping at the first exception. *)
Fixpoint foldM {A B : Type} (f : B → A → result B) (acc : B) (l : list A) : result B :=
  match l with
  | [] => Ok acc
  | a :: l' => acc' ← f acc a; foldM f acc' l'
  end.

(** ** Float arithmetic *)

Class PyFloat (F : Type) : Type := {
  fadd : F → F → F;
  fsub : F → F → F;
  fmul : F → F → F;
  fdiv : F → F → F;
  of_int : Z → F
}.

(** Exact arithmetic on the rationals.  It rounds nothing, so it is not
    the arithmetic of the program: it serves to run the definitions on
    inputs whose values are integers. *)
#[global] Instance Q_float : PyFloat Q := {
  fadd := Qplus;
  fsub := Qminus;
  fmul := Qmult;
  fdiv := Qdiv;
  of_int := inject_Z
}.

(** [float(z)] for an [int] below [2^63] in absolute value; the conversion
    is exact below [2^53]. *)
Definition float_of_int (z : Z) : PrimFloat.float :=
  if z <? 0 then PrimFloat.opp (PrimFloat.of_uint63 (Uint63.of_Z (- z)))
  else PrimFloat.of_uint63 (Uint63.of_Z z).

(** The arithmetic of the program: Python's [float] is IEEE 754 binary64
    with rounding to nearest, ties to even, as the primitive floats are.
    [i / n] on two [int]s is the correctly rounded quotient, which is
    [fdiv (of_int i) (of_int n)] when both are below [2^53]. *)
#[global] Instance binary64 : PyFloat PrimFloat.float := {
  fadd := PrimFloat.add;
  fsub := PrimFloat.sub;
  fmul := PrimFloat.mul;
  fdiv := PrimFloat.div;
  of_int := float_of_int
}.


(** ** Landmark keys *)

(** [str(n)] for a non-negative index. *)
Definition str_of_nat (n : nat) : string := NilEmpty.string_of_uint (Nat.to_uint n).

(** [f'landmark_{idx}_{coord}'] *)
Definition landmark_key (idx : nat) (coord : string) : string :=
  "landmark_" +:+ str_of_nat idx +:+ "_" +:+ coord.

Definition coords : list string := ["x"; "y"; "z"; "visibility"].

(** The keys in the order of the nested loops
    [for idx in range(33): for coord in ['x', 'y', 'z', 'visibility']]. *)
Definition landmark_keys : list string :=
  flat_map (fun idx => map (landmark_key idx) coords) (seq 0 33).

(** ** Strings: [str.lower], [in], [os.path.basename] *)

(** [str.lower] on ASCII text: the letters [A] to [Z] are mapped, every
    other character is kept.  Outside ASCII Python follows Unicode (it
    maps the Kelvin sign U+212A to [k], for one), which this function does
    not: what is stated of [lower] for arbitrary strings is stated for ASCII
    text.  No entry of [VALID_DANCE_NAMES] is concerned. *)
Definition lower_ascii (c : ascii) : ascii :=
  let n := nat_of_ascii c in
  if ((65 <=? n) && (n <=? 90))%nat then ascii_of_nat (n + 32) else c.

Fixpoint lower (s : string) : string :=
  match s with
  | EmptyString => EmptyString
  | String c s' => String (lower_ascii c) (lower s')
  end.

(** Text of ASCII characters only, on which [lower] is [str.lower]. *)
Definition is_ascii (s : string) : Prop :=
  Forall (fun c => (nat_of_ascii c < 128)%nat) (list_ascii_of_string s).

(** [sub in s] *)
Fixpoint contains (sub s : string) : bool :=
  String.prefix sub s ||
  match s with
  | EmptyString => false
  | String _ s' => contains sub s'
  end.

(** [os.path.basename] (POSIX): what follows the last ['/']. *)
Fixpoint basename (p : string) : string :=
  match p with
  | EmptyString => EmptyString
  | String c rest =>
      if contains "/" rest then basename rest
      else if Ascii.eqb c "/" then rest else p
  end.

(** ** extract_dance_name *)

Definition VALID_DANCE_NAMES : list string :=
  ["default_dance"; "griddy"; "floss"; "squabble"; "boogie_down"; "laugh"; "boogie_up"].

Fixpoint extract_dance_name (filename : string) (valid_dances : list string) : string :=
  match valid_dances with
  | [] => "unknown"
  | dance :: rest =>
      if contains (lower dance) (lower filename) then lower dance
      else extract_dance_name filename rest
  end.

(** [collections.deque]: [append] on a deque with a [maxlen] drops the oldest
    entry once the length exceeds it; a negative [maxlen] is refused. *)
Definition deque_new {A : Type} (maxlen : Z) : result (list A) :=
  if maxlen <? 0 then Raise ValueError else Ok [].

Definition deque_append {A : Type} (maxlen : Z) (d : list A) (x : A) : list A :=
  let d' := d ++ [x] in
  if maxlen <? Z.of_nat (length d') then drop 1 d' else d'.

(** [a // b] *)
Definition floordiv (a b : Z) : result Z :=
  if b =? 0 then Raise ZeroDivisionError else Ok (a / b).

Section Pipeline.
Context {F : Type} {PF : PyFloat F}.

(** ** Data model *)

(** One detected body keypoint, as MediaPipe returns it. *)
Record Landmark : Type := mkLandmark {
  lm_x : F;
  lm_y : F;
  lm_z : F;
  lm_visibility : F
}.

(** A frame dictionary: the entries ['sample_number'], ['frame_number'],
    ['dance_name'] and the landmark entries. *)
Record FrameDict : Type := mkFrameDict {
  sample_number : Z;
  frame_number : Z;
  dance_name : string;
  landmark : gmap string F
}.

(** [d[key]] on the landmark entries. *)
Definition getitem (d : gmap string F) (key : string) : result F :=
  match d !! key with
  | Some v => Ok v
  | None => Raise (KeyError key)
  end.

(** [a[i]] on a sequence, for a non-negative index. *)
Definition getidx {A : Type} (a : list A) (i : nat) : result A :=
  match a !! i with
  | Some v => Ok v
  | None => Raise IndexError
  end.

(** [a[-k]] on a sequence, for [k >= 1]. *)
Definition getidx_neg {A : Type} (a : list A) (k : nat) : result A :=
  if (k <=? length a)%nat then getidx a (length a - k) else Raise IndexError.

(** ** create_landmark_dict *)

(** The four assignments of one pass of the loop over
    [enumerate(landmarks.landmark)]. *)
Definition put_landmark (d : gmap string F) (entry : nat * Landmark) : gmap string F :=
  let '(idx, lm) := entry in
  let d := <[landmark_key idx "x" := lm_x lm]> d in
  let d := <[landmark_key idx "y" := lm_y lm]> d in
  let d := <[landmark_key idx "z" := lm_z lm]> d in
  <[landmark_key idx "visibility" := lm_visibility lm]> d.

Definition create_landmark_dict (landmarks : list Landmark)
    (sample_number frame_number : Z) (dance_name : string) : FrameDict :=
  mkFrameDict sample_number frame_number dance_name
    (fold_left put_landmark (imap pair landmarks) ∅).

(** The coordinates of a landmark in the order in which
    [flattened_landmarks.extend] lists them. *)
Definition lm_coords (lm : Landmark) : list F :=
  [lm_x lm; lm_y lm; lm_z lm; lm_visibility lm].

(** ** smooth_landmarks *)

(** [a[start:]] on a sequence. *)
Definition slice_from {A : Type} (start : Z) (a : list A) : list A :=
  let n := Z.of_nat (length a) in
  let s := if start <? 0 then Z.max (start + n) 0 else Z.min start n in
  drop (Z.to_nat s) a.

(** [np.array(buffer)]: the rows must have one common length. *)
Definition np_array (buffer : list (list F)) : result (list (list F)) :=
  match buffer with
  | [] => Ok []
  | r :: rs =>
      if forallb (fun r' => Nat.eqb (length r') (length r)) rs
      then Ok buffer else Raise ValueError
  end.

(** Element-wise sum of two rows of one length. *)
Definition vadd (a b : list F) : list F := zip_with fadd a b.

(** [np.mean(rows, axis=0)] on a two-dimensional array with [width]
    columns: [np.add.reduce] accumulates the rows in order, starting from the
    first one, and the total is divided by the number of rows. *)
Definition np_mean_axis0 (width : nat) (rows : list (list F)) : list F :=
  let total :=
    match rows with
    | [] => replicate width (of_int 0)
    | r :: rs => fold_left vadd rs r
    end in
  (fun s => fdiv s (of_int (Z.of_nat (length rows)))) <$> total.

(** The naive mean that the smoothing filter is compared with: for each
    of the [width] components, the sum of that component over the vectors, in
    the order in which they are held, divided by their number. *)
Definition sum_seq (xs : list F) : F :=
  match xs with
  | [] => of_int 0
  | x :: xs' => fold_left fadd xs' x
  end.

Definition naive_mean (vectors : list (list F)) (width : nat) : list F :=
  (fun j => fdiv (sum_seq ((fun v => default (of_int 0) (v !! j)) <$> vectors))
                 (of_int (Z.of_nat (length vectors)))) <$> seq 0 width.

Definition smooth_landmarks (buffer : list (list F)) (smoothing_window : Z)
    : result (option (list F)) :=
  if (length buffer <? 1)%nat then Ok None
  else
    buffer_array ← np_array buffer;
    let width := length (default [] (head buffer_array)) in
    let smoothed := np_mean_axis0 width (slice_from (- smoothing_window) buffer_array) in
    Ok (Some smoothed).

(** ** interpolate_missing_frames *)

Definition interpolate_missing_frames (prev_frame next_frame : FrameDict)
    (num_missing : Z) : result (list FrameDict) :=
  foldM (fun interpolated_frames i =>
      let ratio := fdiv (of_int i) (of_int (num_missing + 1)) in
      d ← foldM (fun d key =>
             p ← getitem (landmark prev_frame) key;
             n ← getitem (landmark next_frame) key;
             Ok (<[key := fadd (fmul (fsub (of_int 1) ratio) p) (fmul ratio n)]> d))
           ∅ landmark_keys;
      Ok (interpolated_frames ++
            [mkFrameDict (sample_number prev_frame) (frame_number prev_frame + i)
               (dance_name prev_frame) d]))
    [] (seqZ 1 num_missing).

(** A frame dictionary that carries the 132 landmark keys. *)
Definition has_landmark_keys (fr : FrameDict) : Prop :=
  ∀ key, key ∈ landmark_keys → is_Some (landmark fr !! key).

(** What the contract of the interpolator asks of the frame synthesized for
    step [i] of [num_missing]: metadata continued from [prev_frame] and every
    landmark entry on the line from [prev_frame] to [next_frame] at
    [ratio = i / (num_missing + 1)]; it has no other entry. *)
Definition interpolated_at (prev_frame next_frame : FrameDict) (num_missing i : Z)
    (fr : FrameDict) : Prop :=
  let ratio := fdiv (of_int i) (of_int (num_missing + 1)) in
  sample_number fr = sample_number prev_frame ∧
  frame_number fr = frame_number prev_frame + i ∧
  dance_name fr = dance_name prev_frame ∧
  ∀ key,
    landmark fr !! key =
      if decide (key ∈ landmark_keys) then
        p ← landmark prev_frame !! key;
        n ← landmark next_frame !! key;
        Some (fadd (fmul (fsub (of_int 1) ratio) p) (fmul ratio n))
      else None.

(** A record that carries the given sample number and dance name. *)
Definition tagged_with (sample : Z) (dance : string) (fr : FrameDict) : Prop :=
  sample_number fr = sample ∧ dance_name fr = dance.

(** Records numbered 1, 2, ..., [len]. *)
Definition numbered (records : list FrameDict) : Prop :=
  frame_number <$> records = seqZ 1 (Z.of_nat (length records)).

(** A record built from the vector [sm] the way the loop writes
    [smoothed_dict]: entry ['landmark_{idx}_{coord}'] holds [sm[idx * 4 + j]]
    for the [j]-th coordinate name. *)
Definition record_of_vector (sample frame : Z) (dance : string) (sm : list F)
    (rec : FrameDict) : Prop :=
  sample_number rec = sample ∧ frame_number rec = frame ∧ dance_name rec = dance ∧
  ∀ idx j c, (idx < 33)%nat → coords !! j = Some c →
    landmark rec !! landmark_key idx c = sm !! (idx * 4 + j)%nat.

Definition has_landmark_keys_dec (fr : FrameDict) : Decision (has_landmark_keys fr).
Proof.
  refine (cast_if (decide (Forall (fun key => is_Some (landmark fr !! key)) landmark_keys)));
    unfold has_landmark_keys; by rewrite <- Forall_forall.
Defined.

(** ** process_video *)

(** What [cv2.VideoCapture(video_path)] and the detector give for one file:
    the frame count the container reports, whether the capture is open, and
    for each frame that [cap.read()] can decode, the [pose_landmarks] the
    detector returns when that frame is submitted. *)
Record Video : Type := mkVideo {
  video_path : string;
  cap_frame_count : Z;
  cap_isOpened : bool;
  cap_frames : list (option (list Landmark))
}.

(** The local variables of the sampling loop, and the log of the calls
    made on the capture ([read_calls]) and on the detector ([submitted], the
    0-based positions of the frames passed to [pose.process]). *)
Record LoopState : Type := mkLoopState {
  frame_count : Z;
  sampled_frames : Z;
  frame_buffer : list (list F);
  data : list FrameDict;
  read_calls : nat;
  submitted : list Z
}.

Definition flatten_landmarks (landmark_dict : FrameDict) : result (list F) :=
  foldM (fun flattened_landmarks idx =>
      vx ← getitem (landmark landmark_dict) (landmark_key idx "x");
      vy ← getitem (landmark landmark_dict) (landmark_key idx "y");
      vz ← getitem (landmark landmark_dict) (landmark_key idx "z");
      vv ← getitem (landmark landmark_dict) (landmark_key idx "visibility");
      Ok (flattened_landmarks ++ [vx; vy; vz; vv]))
    [] (seq 0 33).

Definition smoothed_fields (smoothed_landmarks : list F) : result (gmap string F) :=
  foldM (fun d idx =>
      vx ← getidx smoothed_landmarks (idx * 4);
      let d := <[landmark_key idx "x" := vx]> d in
      vy ← getidx smoothed_landmarks (idx * 4 + 1);
      let d := <[landmark_key idx "y" := vy]> d in
      vz ← getidx smoothed_landmarks (idx * 4 + 2);
      let d := <[landmark_key idx "z" := vz]> d in
      vv ← getidx smoothed_landmarks (idx * 4 + 3);
      Ok (<[landmark_key idx "visibility" := vv]> d))
    ∅ (seq 0 33).

Section Loop.
Variables (sample_number frames_per_sample smoothing_window frame_interval : Z).
Variable dance_name : string.

(** The branch [if results.pose_landmarks:]. *)
Definition on_detection (pose_landmarks : list Landmark) (st : LoopState)
    : result LoopState :=
  let landmark_dict :=
    create_landmark_dict pose_landmarks sample_number (sampled_frames st + 1) dance_name in
  flattened_landmarks ← flatten_landmarks landmark_dict;
  let frame_buffer := deque_append smoothing_window (frame_buffer st) flattened_landmarks in
  smoothed_landmarks ← smooth_landmarks frame_buffer smoothing_window;
  data ←
    match smoothed_landmarks with
    | Some smoothed_landmarks =>
        d ← smoothed_fields smoothed_landmarks;
        Ok (data st ++ [mkFrameDict sample_number (sampled_frames st + 1) dance_name d])
    | None => Ok (data st)
    end;
  Ok (mkLoopState (frame_count st) (sampled_frames st + 1) frame_buffer data
        (read_calls st) (submitted st)).

(** The branch [else:] of it, when the detector found no pose. *)
Definition on_missing (st : LoopState) : result LoopState :=
  if (2 <=? length (data st))%nat then
    prev_frame ← getidx_neg (data st) 2;
    next_frame ← getidx_neg (data st) 1;
    interpolated_frames ← interpolate_missing_frames prev_frame next_frame 1;
    Ok (mkLoopState (frame_count st) (sampled_frames st + 1) (frame_buffer st)
          (data st ++ interpolated_frames) (read_calls st) (submitted st))
  else Ok st.

(** One pass through the body of the [while] loop, after a successful
    [cap.read()] that decoded [frame]. *)
Definition loop_body (frame : option (list Landmark)) (st : LoopState)
    : result LoopState :=
  st ←
    (if frame_count st mod frame_interval =? 0 then
       let st := mkLoopState (frame_count st) (sampled_frames st) (frame_buffer st)
                   (data st) (read_calls st) (submitted st ++ [frame_count st]) in
       match frame with
       | Some pose_landmarks => on_detection pose_landmarks st
       | None => on_missing st
       end
     else Ok st);
  Ok (mkLoopState (frame_count st + 1) (sampled_frames st) (frame_buffer st)
        (data st) (read_calls st) (submitted st)).

(** [while cap.isOpened() and sampled_frames < frames_per_sample:], over
    the frames the capture still has to give. *)
Fixpoint sampling_loop (isOpened : bool) (frames : list (option (list Landmark)))
    (st : LoopState) : result LoopState :=
  if isOpened && (sampled_frames st <? frames_per_sample) then
    let st := mkLoopState (frame_count st) (sampled_frames st) (frame_buffer st)
                (data st) (S (read_calls st)) (submitted st) in
    match frames with
    | [] => Ok st
    | frame :: frames' => st ← loop_body frame st; sampling_loop isOpened frames' st
    end
  else Ok st.

End Loop.

(** The detector answers of a video are well formed when every detected
    pose lists at least the 33 landmarks that the flattening loop reads. *)
Definition pose_complete (frame : option (list Landmark)) : Prop :=
  match frame with
  | Some lms => (33 ≤ length lms)%nat
  | None => True
  end.

Definition poses_complete (frames : list (option (list Landmark))) : Prop :=
  Forall pose_complete frames.

(** What the sampling loop maintains between two passes. *)
Record loop_inv (sample smoothing_window frame_interval : Z)
    (dance : string) (st : LoopState) : Prop := mkLoopInv {
  inv_data :
    Forall (fun fr => sample_number fr = sample ∧ dance_name fr = dance ∧
                      has_landmark_keys fr) (data st);
  inv_buffer : Forall (fun v => length v = 132%nat) (frame_buffer st);
  inv_buffer_len : Z.of_nat (length (frame_buffer st)) ≤ smoothing_window;
  inv_sampled : Z.of_nat (length (data st)) ≤ sampled_frames st;
  inv_sampled_eq : 0 < smoothing_window → sampled_frames st = Z.of_nat (length (data st));
  inv_count : 0 ≤ frame_count st;
  inv_submitted :
    ∀ p, p ∈ submitted st ↔ 0 ≤ p < frame_count st ∧ p mod frame_interval = 0
}.

(** The three things a pass of the loop body that returns may have done:
    nothing to the records, a record appended after a detection (or none, for
    an empty buffer), a record appended by the interpolator. *)
Inductive pass_kind (sample smoothing_window frame_interval : Z) (dance : string)
    (frame : option (list Landmark)) (st st' : LoopState) : Prop :=
  | pass_idle :
      frame_count st mod frame_interval ≠ 0 ∨ (frame = None ∧ (length (data st) < 2)%nat) →
      data st' = data st → sampled_frames st' = sampled_frames st →
      frame_buffer st' = frame_buffer st →
      pass_kind sample smoothing_window frame_interval dance frame st st'
  | pass_detected lms raw :
      frame = Some lms → frame_count st mod frame_interval = 0 →
      (33 ≤ length lms)%nat → raw = flat_map lm_coords (take 33 lms) →
      frame_buffer st' = deque_append smoothing_window (frame_buffer st) raw →
      sampled_frames st' = sampled_frames st + 1 →
      (frame_buffer st' = [] ∧ data st' = data st) ∨
      (∃ sm d, smooth_landmarks (frame_buffer st') smoothing_window = Ok (Some sm) ∧
               smoothed_fields sm = Ok d ∧
               data st' = data st ++ [mkFrameDict sample (sampled_frames st + 1) dance d]) →
      pass_kind sample smoothing_window frame_interval dance frame st st'
  | pass_interpolated pre prev next new :
      frame = None → frame_count st mod frame_interval = 0 →
      data st = pre ++ [prev; next] →
      has_landmark_keys prev → has_landmark_keys next →
      interpolated_at prev next 1 1 new →
      data st' = data st ++ [new] → sampled_frames st' = sampled_frames st + 1 →
      frame_buffer st' = frame_buffer st →
      pass_kind sample smoothing_window frame_interval dance frame st st'.

(** The state in which the function returns when it skips the video. *)
Definition skipped : LoopState := mkLoopState 0 0 [] [] 0 [].

(** [process_video] together with the final loop state. *)
Definition process_video_run (video : Video)
    (sample_number frames_per_sample smoothing_window : Z) : result LoopState :=
  let total_frames := cap_frame_count video in
  if total_frames =? 0 then Ok skipped
  else
    q ← floordiv total_frames frames_per_sample;
    let frame_interval := Z.max 1 q in
    let video_filename := basename (video_path video) in
    let dance_name := extract_dance_name video_filename VALID_DANCE_NAMES in
    if String.eqb dance_name "unknown" then Ok skipped
    else
      frame_buffer ← deque_new smoothing_window;
      sampling_loop sample_number frames_per_sample smoothing_window frame_interval
        dance_name (cap_isOpened video) (cap_frames video)
        (mkLoopState 0 0 frame_buffer [] 0 []).

(** The same file and capture, cut after its first [m] decodable frames. *)
Definition first_frames (m : nat) (video : Video) : Video :=
  mkVideo (video_path video) (cap_frame_count video) (cap_isOpened video)
    (take m (cap_frames video)).

Definition process_video (video : Video)
    (sample_number frames_per_sample smoothing_window : Z) : result (list FrameDict) :=
  data <$> process_video_run video sample_number frames_per_sample smoothing_window.

End Pipeline.

Arguments Landmark F : clear implicits.
Arguments FrameDict F : clear implicits.
Arguments Video F : clear implicits.
Arguments LoopState F : clear implicits.

#[global] Existing Instance has_landmark_keys_dec.

(** ** Running the model on the rationals *)

Module Demo.

Definition lm (n : Z) : Landmark Q :=
  mkLandmark (inject_Z n) (inject_Z (n + 1)) (inject_Z (n + 2)) (inject_Z (n + 3)).

(** A detected pose of 33 landmarks. *)
Definition pose (n : Z) : list (Landmark Q) :=
  (fun i => lm (n + 10 * Z.of_nat i)) <$> seq 0 33.

(** A three-frame clip: two detections, then a frame without a pose. *)
Definition v1 : Video Q :=
  mkVideo "sample_data/Griddy_take2.mp4" 3 true [Some (pose 0); Some (pose 1000); None].

(** A four-frame clip: two detections, a frame without a pose, and a
    detection again. *)
Definition v_gap : Video Q :=
  mkVideo "sample_data/Griddy_take2.mp4" 4 true
    [Some (pose 0); Some (pose 1000); None; Some (pose 2000)].

(** A file that reports no frame at all. *)
Definition v0 : Video Q := mkVideo "sample_data/floss.mp4" 0 true [Some (pose 0)].

(** A file whose name has no dance in it. *)
Definition v_clip : Video Q := mkVideo "sample_data/clip001.mp4" 3 true [Some (pose 0)].

Definition prev_frame : FrameDict Q := create_landmark_dict (pose 0) 7 1 "griddy".
Definition next_frame : FrameDict Q := create_landmark_dict (pose 1000) 7 2 "griddy".

(** The loop state after the two detections of [v1]. *)
Definition st2 : LoopState Q :=
  mkLoopState 2 2 [flat_map lm_coords (pose 0); flat_map lm_coords (pose 1000)]
    [prev_frame; next_frame] 2 [0; 1].

(** The loop state before the first frame. *)
Definition st0 : LoopState Q := mkLoopState 0 0 [] [] 0 [].

End Demo.

(** ** main *)

(** [s.endswith(suffix)]: some tail of [s] is [suffix]. *)
Fixpoint endswith (s suffix : string) : bool :=
  String.eqb s suffix ||
  match s with
  | EmptyString => false
  | String _ s' => endswith s' suffix
  end.

(** [f.endswith(('.mp4', '.avi', '.mov'))] *)
Definition is_video_name (f : string) : bool :=
  endswith f ".mp4" || endswith f ".avi" || endswith f ".mov".

(** [os.path.join(a, b)] (POSIX). *)
Definition path_join (a b : string) : string :=
  if String.prefix "/" b then b
  else if String.eqb a "" || endswith a "/" then a +:+ b
  else a +:+ "/" +:+ b.

Section Batch.
Context {F : Type} {PF : PyFloat F}.

(** One name that [os.listdir(video_directory)] gives: whether it is a
    regular file, and what a capture opened on it and the detector give. *)
Record DirEntry : Type := mkDirEntry {
  entry_name : string;
  entry_isfile : bool;
  entry_frame_count : Z;
  entry_isOpened : bool;
  entry_frames : list (option (list (Landmark F)))
}.

(** What [main] sees of the file system: whether ['dance_dataset'] exists,
    and the listing of ['sample_data'] when that directory exists. *)
Record FileSystem : Type := mkFileSystem {
  output_directory_exists : bool;
  video_directory_listing : option (list DirEntry)
}.

(** What [main] does when no exception escapes: whether it called
    [os.makedirs], whether it left through [exit()], and the rows it handed
    to [to_csv], if any. *)
Record MainOutcome : Type := mkMainOutcome {
  makedirs_called : bool;
  exited : bool;
  csv_rows : option (list (FrameDict F))
}.

(** [cv2.VideoCapture(video_path)] on a listed file. *)
Definition open_capture (video_path : string) (e : DirEntry) : Video F :=
  mkVideo video_path (entry_frame_count e) (entry_isOpened e) (entry_frames e).

(** The list comprehension that selects the video files. *)
Definition video_files (listing : list DirEntry) : list DirEntry :=
  List.filter (fun e => is_video_name (entry_name e) && entry_isfile e) listing.

(** The call that [main] makes for the video file [e] when it is the
    sample numbered [n]. *)
Definition process_entry (e : DirEntry) (n : Z) : result (list (FrameDict F)) :=
  process_video (open_capture (path_join "sample_data" (entry_name e)) e) n 96 5.

(** One pass of [for video_file in video_files:], on the pair of
    [all_data] and [sample_number]. *)
Definition main_step (acc : list (FrameDict F) * Z) (video_file : DirEntry)
    : result (list (FrameDict F) * Z) :=
  let '(all_data, sample_number) := acc in
  let video_path := path_join "sample_data" (entry_name video_file) in
  sample_data ← process_video (open_capture video_path video_file) sample_number 96 5;
  let all_data :=
    match sample_data with
    | [] => all_data
    | _ :: _ => all_data ++ sample_data
    end in
  Ok (all_data, sample_number + 1).

Definition main (fs : FileSystem) : result MainOutcome :=
  let makedirs := negb (output_directory_exists fs) in
  match video_directory_listing fs with
  | None => Ok (mkMainOutcome makedirs true None)
  | Some listing =>
      acc ← foldM main_step ([], 1) (video_files listing);
      let all_data := fst acc in
      Ok (mkMainOutcome makedirs false
            (match all_data with [] => None | _ :: _ => Some all_data end))
  end.

(** The raw vectors of the frames that the loop submits and on which the
    detector finds a pose, in order, for the frames from position [pos] on. *)
Fixpoint detected_raws (frame_interval pos : Z)
    (frames : list (option (list (Landmark F)))) : list (list F) :=
  match frames with
  | [] => []
  | frame :: frames' =>
      match frame with
      | Some lms =>
          if pos mod frame_interval =? 0
          then flat_map lm_coords (take 33 lms) :: detected_raws frame_interval (pos + 1) frames'
          else detected_raws frame_interval (pos + 1) frames'
      | None => detected_raws frame_interval (pos + 1) frames'
      end
  end.

End Batch.

Arguments DirEntry F : clear implicits.
Arguments FileSystem F : clear implicits.
Arguments MainOutcome F : clear implicits.

(** Inputs for the batch driver. *)
Module DemoBatch.

Definition listing : list (DirEntry Q) :=
  [ mkDirEntry "Griddy_take2.mp4" true 3 true [Some (Demo.pose 0); Some (Demo.pose 1000); None];
    mkDirEntry "notes.txt" true 0 false [];
    mkDirEntry "clip001.mp4" true 3 true [Some (Demo.pose 0)];
    mkDirEntry "floss.avi" true 1 true [Some (Demo.pose 50)] ].

Definition fs : FileSystem Q := mkFileSystem false (Some listing).

(** A clip with a pose on each of its three frames. *)
Definition v_all : Video Q :=
  mkVideo "sample_data/floss_01.mp4" 3 true
    [Some (Demo.pose 0); Some (Demo.pose 1000); Some (Demo.pose 2000)].

(** A clip on which the detector finds nothing. *)
Definition v_none : Video Q := mkVideo "sample_data/floss_01.mp4" 2 true [None; None].




(** Three vectors of two numbers. *)
Definition buffer3 : list (list Q) :=
  [[inject_Z 1; inject_Z 2]; [inject_Z 3; inject_Z 4]; [inject_Z 5; inject_Z 6]].

End DemoBatch.

(** * Properties *)

(** ** Strings *)

Lemma prefix_app sub s : String.prefix sub s = true ↔ ∃ post, s = sub +:+ post.
Proof.
  revert s; induction sub as [|a sub IH]; intros s.
  - destruct s; simpl; split; eauto.
  - destruct s as [|b s]; simpl.
    + split; [done|]. by intros [post ?].
    + destruct (ascii_dec a b) as [->|Hne].
      * rewrite IH. split; intros [post E]; exists post.
        -- by rewrite E.
        -- by injection E.
      * split; [done|]. intros [post E]. by injection E.
Qed.

(** [contains] is the substring test. *)
Lemma contains_app sub s :
  contains sub s = true ↔ ∃ pre post, s = pre +:+ sub +:+ post.
Proof.
  induction s as [|b s IH]; cbn [contains]; rewrite orb_true_iff, prefix_app.
  - split.
    + intros [[post E]|?]; [|done]. by exists "", post.
    + intros (pre & post & E). left. destruct pre; [by exists post|done].
  - rewrite IH. split.
    + intros [[post E]|(pre & post & E)]; [by exists "", post|].
      exists (String b pre), post. by rewrite E.
    + intros (pre & post & E). destruct pre as [|c pre]; [left; by exists post|].
      right. exists pre, post. by injection E.
Qed.

(** No vocabulary term in the lowercased file name: the labeller answers
    the sentinel. *)
Lemma extract_dance_name_unknown filename valid_dances :
  (∀ dance, dance ∈ valid_dances → contains (lower dance) (lower filename) = false) →
  extract_dance_name filename valid_dances = "unknown".
Proof.
  induction valid_dances as [|dance rest IH]; intros Hno; [done|]. simpl.
  rewrite Hno by (by left). apply IH. intros d Hd. apply Hno. by right.
Qed.

Lemma extract_dance_name_app filename before dance after :
  (∀ d, d ∈ before → contains (lower d) (lower filename) = false) →
  contains (lower dance) (lower filename) = true →
  extract_dance_name filename (before ++ dance :: after) = lower dance.
Proof.
  induction before as [|d before IH]; intros Hno Hyes; simpl.
  - by rewrite Hyes.
  - rewrite Hno by (by left). apply IH; [|done]. intros d' Hd'. apply Hno. by right.
Qed.

(** X7. On ASCII text, when several terms of the list occur in the file
    name, the one that comes first in the list wins, and it is answered in
    lower case; the terms after it are not looked at. *)
Lemma extract_dance_name_first filename before dance after :
  is_ascii filename → Forall is_ascii before → is_ascii dance →
  (∀ d, d ∈ before → contains (lower d) (lower filename) = false) →
  contains (lower dance) (lower filename) = true →
  extract_dance_name filename (before ++ dance :: after) = lower dance.
Proof. intros _ _ _. apply extract_dance_name_app. Qed.

(** ** The landmark keys are pairwise distinct *)

Lemma digits_then_underscore d1 d2 t1 t2 :
  NilEmpty.string_of_uint d1 +:+ String "_" t1
    = NilEmpty.string_of_uint d2 +:+ String "_" t2 →
  d1 = d2 ∧ t1 = t2.
Proof.
  revert d2; induction d1 as [|d1 IH|d1 IH|d1 IH|d1 IH|d1 IH|d1 IH|d1 IH|d1 IH|d1 IH|d1 IH];
    intros [|d2|d2|d2|d2|d2|d2|d2|d2|d2|d2]; simpl; intros E;
    try discriminate E;
    try (injection E as E; destruct (IH _ E) as [-> ->]; done).
  by injection E as ->.
Qed.

Lemma landmark_key_inj i c j c' :
  landmark_key i c = landmark_key j c' → i = j ∧ c = c'.
Proof.
  unfold landmark_key, str_of_nat. intros E.
  simpl in E. injection E as E.
  destruct (digits_then_underscore _ _ _ _ E) as [E1 E2].
  split; [by apply Unsigned.to_uint_inj | done].
Qed.

Lemma bind_Ok {A B : Type} (a : A) (f : A → result B) : (Ok a ≫= f) = f a.
Proof. reflexivity. Qed.

Section Dictionaries.
Context {F : Type} {PF : PyFloat F}.
Implicit Types (d : gmap string F) (lm : Landmark F) (fr : FrameDict F).

Lemma getitem_Some d key v : d !! key = Some v → getitem d key = Ok v.
Proof. unfold getitem. by intros ->. Qed.

Lemma getidx_Some {A : Type} (a : list A) i v : a !! i = Some v → getidx a i = Ok v.
Proof. unfold getidx. by intros ->. Qed.

(** Reading one coordinate entry back after the four assignments made
    for landmark [idx]. *)
Lemma lookup_put4 d idx vx vy vz vv i j c :
  coords !! j = Some c →
  <[landmark_key idx "visibility" := vv]>
    (<[landmark_key idx "z" := vz]>
      (<[landmark_key idx "y" := vy]>
        (<[landmark_key idx "x" := vx]> d))) !! landmark_key i c
  = if decide (i = idx) then [vx; vy; vz; vv] !! j else d !! landmark_key i c.
Proof.
  intros Hc.
  assert (Hne : ∀ c', i ≠ idx ∨ c ≠ c' → landmark_key idx c' ≠ landmark_key i c).
  { intros c' Hd E. apply landmark_key_inj in E as [-> ->]. by destruct Hd. }
  case_decide as Hi.
  - subst i. destruct j as [|[|[|[|j]]]]; simpl in Hc; try discriminate Hc;
      injection Hc as <-;
      repeat first [ rewrite lookup_insert_eq; reflexivity
                   | rewrite lookup_insert_ne by (apply Hne; right; discriminate) ].
  - rewrite !lookup_insert_ne by (apply Hne; by left). done.
Qed.

Lemma lookup_put_landmark d idx lm i j c :
  coords !! j = Some c →
  put_landmark d (idx, lm) !! landmark_key i c
  = if decide (i = idx) then lm_coords lm !! j else d !! landmark_key i c.
Proof. intros Hc. unfold put_landmark. by rewrite (lookup_put4 _ _ _ _ _ _ _ j). Qed.

Lemma create_landmark_dict_lookup (lms : list (Landmark F)) s f dn idx j c :
  coords !! j = Some c →
  landmark (create_landmark_dict lms s f dn) !! landmark_key idx c
  = lms !! idx ≫= λ lm, lm_coords lm !! j.
Proof.
  intros Hc. unfold create_landmark_dict; simpl.
  induction lms as [|lm lms IH] using rev_ind; [done|].
  rewrite imap_app, fold_left_app. cbn [imap fold_left].
  rewrite Nat.add_0_r, (lookup_put_landmark _ _ _ _ j) by done.
  case_decide as Hi.
  - subst idx. by rewrite list_lookup_middle.
  - rewrite IH. destruct (decide (idx < length lms)%nat).
    + by rewrite lookup_app_l.
    + rewrite !lookup_ge_None_2; [done| |lia]. rewrite length_app; simpl; lia.
Qed.

Lemma elem_of_landmark_keys key :
  key ∈ landmark_keys ↔
  ∃ idx j c, (idx < 33)%nat ∧ coords !! j = Some c ∧ key = landmark_key idx c.
Proof.
  unfold landmark_keys. rewrite list_elem_of_In, in_flat_map. split.
  - intros (idx & Hidx%in_seq & Hc%in_map_iff). destruct Hc as (c & <- & Hc).
    apply list_elem_of_In, list_elem_of_lookup in Hc as [j Hj].
    exists idx, j, c. split; [lia|done].
  - intros (idx & j & c & Hidx & Hj & ->). exists idx. split; [apply in_seq; lia|].
    apply in_map, list_elem_of_In. by eapply list_elem_of_lookup_2.
Qed.

Lemma coords_lookup_lt j c : coords !! j = Some c → (j < 4)%nat.
Proof. intros Hj%lookup_lt_Some. done. Qed.

(** A record written from a vector of 132 numbers carries all the keys. *)
Lemma record_of_vector_keys s f dn (sm : list F) fr :
  (132 ≤ length sm)%nat → record_of_vector s f dn sm fr → has_landmark_keys fr.
Proof.
  intros Hlen (_ & _ & _ & Hlook) key (idx & j & c & Hidx & Hj & ->)%elem_of_landmark_keys.
  rewrite (Hlook _ _ _ Hidx Hj). apply lookup_lt_is_Some_2.
  apply coords_lookup_lt in Hj. lia.
Qed.

Lemma length_flat_coords (lms : list (Landmark F)) :
  length (flat_map lm_coords lms) = (4 * length lms)%nat.
Proof. induction lms as [|lm lms IH]; simpl; [done|]. rewrite IH. lia. Qed.

Lemma lookup_flat_coords (lms : list (Landmark F)) i j :
  (j < 4)%nat →
  flat_map lm_coords lms !! (i * 4 + j)%nat = lms !! i ≫= λ lm, lm_coords lm !! j.
Proof.
  intros Hj. revert i; induction lms as [|lm lms IH]; intros i; [done|].
  destruct i as [|i].
  - simpl. by destruct j as [|[|[|[|j]]]]; try lia.
  - replace (S i * 4 + j)%nat with (4 + (i * 4 + j))%nat by lia. apply IH.
Qed.

(** On a dictionary made from at least 33 landmarks, the flattening loop
    finds all its keys and lists the first 33 landmarks. *)
Lemma flatten_landmarks_create (lms : list (Landmark F)) s f dn :
  (33 ≤ length lms)%nat →
  flatten_landmarks (create_landmark_dict lms s f dn)
  = Ok (flat_map lm_coords (take 33 lms)).
Proof.
  intros Hlen. unfold flatten_landmarks.
  enough (G : ∀ n a acc, (a + n ≤ length lms)%nat →
    foldM (λ flattened_landmarks idx,
        vx ← getitem (landmark (create_landmark_dict lms s f dn)) (landmark_key idx "x");
        vy ← getitem (landmark (create_landmark_dict lms s f dn)) (landmark_key idx "y");
        vz ← getitem (landmark (create_landmark_dict lms s f dn)) (landmark_key idx "z");
        vv ← getitem (landmark (create_landmark_dict lms s f dn))
               (landmark_key idx "visibility");
        Ok (flattened_landmarks ++ [vx; vy; vz; vv])) acc (seq a n)
    = Ok (acc ++ flat_map lm_coords (take n (drop a lms)))).
  { rewrite (G 33%nat 0%nat []) by (simpl; lia). by rewrite drop_0. }
  induction n as [|n IH]; intros a acc Ha; cbn [foldM seq].
  - simpl. by rewrite app_nil_r.
  - destruct (lookup_lt_is_Some_2 lms a) as [lm Hlm]; [lia|].
    rewrite (getitem_Some _ (landmark_key a "x") (lm_x lm)), bind_Ok
      by (by rewrite (create_landmark_dict_lookup _ _ _ _ _ 0%nat), Hlm).
    rewrite (getitem_Some _ (landmark_key a "y") (lm_y lm)), bind_Ok
      by (by rewrite (create_landmark_dict_lookup _ _ _ _ _ 1%nat), Hlm).
    rewrite (getitem_Some _ (landmark_key a "z") (lm_z lm)), bind_Ok
      by (by rewrite (create_landmark_dict_lookup _ _ _ _ _ 2%nat), Hlm).
    rewrite (getitem_Some _ (landmark_key a "visibility") (lm_visibility lm)), bind_Ok
      by (by rewrite (create_landmark_dict_lookup _ _ _ _ _ 3%nat), Hlm).
    rewrite bind_Ok, IH by lia. rewrite (drop_S _ _ _ Hlm). simpl.
    by rewrite <- app_assoc.
Qed.

(** On a vector of at least 132 numbers, the loop that writes the smoothed
    dictionary reads every index it needs. *)
Lemma smoothed_fields_Ok (sm : list F) :
  (132 ≤ length sm)%nat →
  ∃ d, smoothed_fields sm = Ok d ∧
    ∀ idx j c, (idx < 33)%nat → coords !! j = Some c →
      d !! landmark_key idx c = sm !! (idx * 4 + j)%nat.
Proof.
  intros Hlen. unfold smoothed_fields.
  enough (G : ∀ (l : list nat) (m : gmap string F),
    (∀ i, i ∈ l → (i < 33)%nat) →
    ∃ d, foldM (λ d idx,
        vx ← getidx sm (idx * 4);
        let d := <[landmark_key idx "x" := vx]> d in
        vy ← getidx sm (idx * 4 + 1);
        let d := <[landmark_key idx "y" := vy]> d in
        vz ← getidx sm (idx * 4 + 2);
        let d := <[landmark_key idx "z" := vz]> d in
        vv ← getidx sm (idx * 4 + 3);
        Ok (<[landmark_key idx "visibility" := vv]> d)) m l = Ok d ∧
      ∀ i j c, coords !! j = Some c →
        d !! landmark_key i c
        = if decide (i ∈ l) then sm !! (i * 4 + j)%nat else m !! landmark_key i c).
  { destruct (G (seq 0 33) ∅) as (d & Hd & Hlook).
    { intros i Hi. apply elem_of_seq in Hi. lia. }
    exists d; split; [done|]. intros idx j c Hidx Hc.
    rewrite (Hlook _ _ _ Hc). rewrite decide_True; [done|]. apply elem_of_seq; lia. }
  induction l as [|idx l IH]; intros m Hl.
  - exists m; split; [done|]. intros i j c _. rewrite decide_False; [done|].
    by intros ?%elem_of_nil.
  - assert (Hidx : (idx < 33)%nat) by (apply Hl; by left).
    destruct (lookup_lt_is_Some_2 sm (idx * 4)) as [vx Hx]; [lia|].
    destruct (lookup_lt_is_Some_2 sm (idx * 4 + 1)) as [vy Hy]; [lia|].
    destruct (lookup_lt_is_Some_2 sm (idx * 4 + 2)) as [vz Hz]; [lia|].
    destruct (lookup_lt_is_Some_2 sm (idx * 4 + 3)) as [vv Hv]; [lia|].
    cbn [foldM].
    rewrite (getidx_Some _ _ _ Hx), bind_Ok. cbv zeta.
    rewrite (getidx_Some _ _ _ Hy), bind_Ok.
    rewrite (getidx_Some _ _ _ Hz), bind_Ok.
    rewrite (getidx_Some _ _ _ Hv), !bind_Ok.
    edestruct IH as (d & -> & Hlook); [intros i Hi; apply Hl; by right|].
    exists d; split; [done|]. intros i j c Hc.
    rewrite (Hlook _ _ _ Hc), (lookup_put4 _ _ _ _ _ _ _ j) by done.
    destruct (decide (i = idx)) as [->|Hne].
    + rewrite (decide_True (P := idx ∈ idx :: l)) by (by left).
      case_decide; [done|].
      destruct j as [|[|[|[|j]]]]; simpl in Hc |- *; try discriminate Hc;
        rewrite ?Nat.add_0_r; congruence.
    + destruct (decide (i ∈ l)).
      * rewrite decide_True by (by right). done.
      * rewrite decide_False by (intros [?|?]%elem_of_cons; done). done.
Qed.

(** The inner loop of the interpolator over a list of keys that both
    frames carry. *)
Lemma interpolate_keys_Ok (ratio : F) (prev next : gmap string F) (ks : list string) d0 :
  (∀ key, key ∈ ks → is_Some (prev !! key) ∧ is_Some (next !! key)) →
  ∃ d, foldM (λ d key,
         p ← getitem prev key;
         n ← getitem next key;
         Ok (<[key := fadd (fmul (fsub (of_int 1) ratio) p) (fmul ratio n)]> d))
       d0 ks = Ok d ∧
    ∀ key, d !! key =
      if decide (key ∈ ks) then
        p ← prev !! key; n ← next !! key;
        Some (fadd (fmul (fsub (of_int 1) ratio) p) (fmul ratio n))
      else d0 !! key.
Proof.
  revert d0; induction ks as [|k ks IH]; intros d0 Hks.
  - exists d0; split; [done|]. intros key. rewrite decide_False; [done|]. by intros ?%elem_of_nil.
  - destruct (Hks k) as [[p Hp] [n Hn]]; [by left|].
    cbn [foldM]. rewrite (getitem_Some _ _ _ Hp), bind_Ok, (getitem_Some _ _ _ Hn), !bind_Ok.
    edestruct IH as (d & -> & Hlook); [intros key Hkey; apply Hks; by right|].
    exists d; split; [done|]. intros key. rewrite Hlook.
    destruct (decide (key ∈ ks)) as [Hin|Hin].
    + rewrite decide_True; [done|by right].
    + destruct (decide (key = k)) as [->|Hne].
      * rewrite decide_True by (by left). rewrite lookup_insert_eq, Hp, Hn. done.
      * rewrite decide_False by (intros [?|?]%elem_of_cons; done).
        by rewrite lookup_insert_ne.
Qed.

(** The interpolator never raises on two frames that carry the landmark
    keys, and answers one frame per step, each as the contract asks. *)
Lemma interpolate_missing_frames_Ok (prev next : FrameDict F) (num_missing : Z) :
  has_landmark_keys prev → has_landmark_keys next →
  ∃ frames, interpolate_missing_frames prev next num_missing = Ok frames ∧
    Forall2 (interpolated_at prev next num_missing) (seqZ 1 num_missing) frames.
Proof.
  intros Hp Hn. unfold interpolate_missing_frames.
  enough (G : ∀ (l : list Z) acc, ∃ out,
    foldM (λ interpolated_frames i,
        d ← foldM (λ d key,
               p ← getitem (landmark prev) key;
               n ← getitem (landmark next) key;
               Ok (<[key := fadd (fmul (fsub (of_int 1)
                                    (fdiv (of_int i) (of_int (num_missing + 1)))) p)
                              (fmul (fdiv (of_int i) (of_int (num_missing + 1))) n)]> d))
             ∅ landmark_keys;
        Ok (interpolated_frames ++
              [mkFrameDict (sample_number prev) (frame_number prev + i)
                 (dance_name prev) d])) acc l = Ok (acc ++ out) ∧
    Forall2 (interpolated_at prev next num_missing) l out).
  { destruct (G (seqZ 1 num_missing) []) as (out & Hout & HF). by exists out. }
  induction l as [|i l IH]; intros acc.
  - exists []. split; [by rewrite app_nil_r|constructor].
  - cbn [foldM].
    edestruct (interpolate_keys_Ok (fdiv (of_int i) (of_int (num_missing + 1)))
                 (landmark prev) (landmark next) landmark_keys ∅)
      as (d & -> & Hlook); [intros key Hkey; split; [by apply Hp|by apply Hn]|].
    rewrite !bind_Ok.
    destruct (IH (acc ++ [mkFrameDict (sample_number prev) (frame_number prev + i)
                            (dance_name prev) d])) as (out & -> & HF).
    eexists (_ :: out). split; [by rewrite <- app_assoc|].
    constructor; [|done]. repeat split; simpl. intros key. rewrite Hlook.
    by case_decide.
Qed.

End Dictionaries.

(** ** The bounded buffer *)

Section Deque.
Context {A : Type}.
Implicit Types (d : list A) (x : A).

Lemma deque_append_Forall (P : A → Prop) maxlen d x :
  Forall P d → P x → Forall P (deque_append maxlen d x).
Proof.
  intros Hd Hx. unfold deque_append.
  assert (Forall P (d ++ [x])) by (apply Forall_app; auto).
  case_match; [by apply Forall_drop|done].
Qed.

Lemma deque_append_length maxlen d x :
  0 ≤ maxlen → Z.of_nat (length d) ≤ maxlen →
  Z.of_nat (length (deque_append maxlen d x)) ≤ maxlen.
Proof.
  intros H0 Hd. unfold deque_append.
  destruct (maxlen <? _) eqn:E.
  - rewrite length_drop, length_app. simpl. lia.
  - by apply Z.ltb_ge in E.
Qed.

Lemma deque_append_nonempty maxlen d x : 0 < maxlen → deque_append maxlen d x ≠ [].
Proof.
  intros H0. unfold deque_append. destruct (maxlen <? _) eqn:E.
  - apply Z.ltb_lt in E. rewrite length_app in E. simpl in E.
    destruct d as [|y [|z d]]; simpl in *; [lia|done|done].
  - by destruct d.
Qed.

Lemma deque_append_zero x : deque_append 0 [] x = [].
Proof. reflexivity. Qed.

Lemma deque_append_first maxlen x : 0 < maxlen → deque_append maxlen [] x = [x].
Proof.
  intros H0. unfold deque_append. simpl. by rewrite (proj2 (Z.ltb_ge _ _)) by lia.
Qed.

End Deque.

(** ** The moving average *)

Section Smoothing.
Context {F : Type} {PF : PyFloat F}.
Implicit Types (buffer rows : list (list F)) (v r : list F).

Lemma np_array_Ok buffer n :
  Forall (λ v, length v = n) buffer → np_array buffer = Ok buffer.
Proof.
  destruct buffer as [|r rs]; [done|]. intros Hall.
  apply Forall_cons in Hall as [Hr Hrs]. simpl.
  rewrite (proj2 (forallb_forall _ rs)); [done|].
  intros v Hv%list_elem_of_In. apply Nat.eqb_eq.
  rewrite Hr. by apply (proj1 (Forall_forall _ rs) Hrs).
Qed.

(** With a window of at least the number of rows, [a[-window:]] is [a]. *)
Lemma slice_from_all {A : Type} (a : list A) (w : Z) :
  Z.of_nat (length a) ≤ w → slice_from (- w) a = a.
Proof.
  intros Hw. unfold slice_from. destruct (- w <? 0) eqn:E.
  - by rewrite Z.max_r, drop_0 by lia.
  - apply Z.ltb_ge in E. destruct a as [|x a]; [apply drop_nil|]. simpl in Hw. lia.
Qed.

(** With a smaller window it is the last [window] rows. *)
Lemma slice_from_last {A : Type} (a : list A) (w : Z) :
  0 < w ≤ Z.of_nat (length a) → slice_from (- w) a = drop (length a - Z.to_nat w) a.
Proof.
  intros Hw. unfold slice_from. rewrite (proj2 (Z.ltb_lt _ _)) by lia.
  f_equal. lia.
Qed.

Lemma length_fold_vadd rs r :
  Forall (λ v, length v = length r) rs → length (fold_left vadd rs r) = length r.
Proof.
  revert r; induction rs as [|r' rs IH]; intros r Hall; [done|].
  apply Forall_cons in Hall as [Hr' Hrs]. simpl.
  assert (Hl : length (vadd r r') = length r).
  { unfold vadd. rewrite length_zip_with. lia. }
  rewrite IH; [done|]. by rewrite Hl.
Qed.

(** Component [j] of the row-by-row accumulation is the running sum of
    the [j]-th components. *)
Lemma lookup_fold_vadd rs r j x :
  Forall (λ v, length v = length r) rs → r !! j = Some x →
  fold_left vadd rs r !! j
  = Some (fold_left fadd ((λ v, default (of_int 0) (v !! j)) <$> rs) x).
Proof.
  revert r x; induction rs as [|r' rs IH]; intros r x Hall Hx; [done|].
  apply Forall_cons in Hall as [Hr' Hrs]. simpl.
  destruct (lookup_lt_is_Some_2 r' j) as [y Hy].
  { rewrite Hr'. by eapply lookup_lt_Some. }
  rewrite (IH (vadd r r') (fadd x y)).
  - by rewrite Hy.
  - assert (Hl : length (vadd r r') = length r).
    { unfold vadd. rewrite length_zip_with. lia. }
    by rewrite Hl.
  - unfold vadd. rewrite lookup_zip_with, Hx, Hy. done.
Qed.

(** [np.mean(axis=0)] over rows of one width is the naive mean. *)
Lemma np_mean_axis0_naive rows n :
  rows ≠ [] → Forall (λ v, length v = n) rows →
  np_mean_axis0 n rows = naive_mean rows n.
Proof.
  destruct rows as [|r rs]; [done|]. intros _ Hall.
  apply Forall_cons in Hall as [Hr Hrs].
  assert (Hrs' : Forall (λ v, length v = length r) rs) by (by rewrite Hr).
  unfold np_mean_axis0, naive_mean. apply list_eq; intros j.
  rewrite !list_lookup_fmap.
  destruct (decide (j < n)%nat) as [Hj|Hj].
  - destruct (lookup_lt_is_Some_2 r j) as [x Hx]; [lia|].
    rewrite (lookup_fold_vadd _ _ _ x), lookup_seq_lt by done. simpl. by rewrite Hx.
  - rewrite lookup_seq_ge by lia. rewrite lookup_ge_None_2; [done|].
    rewrite length_fold_vadd by done. lia.
Qed.

(** The filter on a buffer that fits the window. *)
Lemma smooth_landmarks_within buffer (w : Z) n :
  buffer ≠ [] → Z.of_nat (length buffer) ≤ w → Forall (λ v, length v = n) buffer →
  smooth_landmarks buffer w = Ok (Some (naive_mean buffer n)).
Proof.
  intros Hne Hw Hall. unfold smooth_landmarks.
  destruct buffer as [|r rs]; [done|].
  rewrite (np_array_Ok _ n), bind_Ok by done.
  rewrite slice_from_all by done.
  replace (length (default [] (head (r :: rs)))) with n
    by (apply Forall_cons in Hall as [<- _]; done).
  by rewrite np_mean_axis0_naive.
Qed.

(** X5. The filter on a buffer longer than the window is a moving
    average: the mean of the last [w] vectors only. *)
Lemma smooth_landmarks_window buffer (w : Z) n :
  0 < w ≤ Z.of_nat (length buffer) → Forall (λ v, length v = n) buffer →
  smooth_landmarks buffer w
  = Ok (Some (naive_mean (drop (length buffer - Z.to_nat w) buffer) n)).
Proof.
  intros Hw Hall. unfold smooth_landmarks.
  destruct buffer as [|r rs]; [simpl in Hw; lia|].
  rewrite (np_array_Ok _ n), bind_Ok by done.
  rewrite slice_from_last by done.
  replace (length (default [] (head (r :: rs)))) with n
    by (apply Forall_cons in Hall as [<- _]; done).
  rewrite np_mean_axis0_naive; [done| |by apply Forall_drop].
  intros Hnil%(f_equal length). rewrite length_drop in Hnil. simpl in Hnil, Hw. lia.
Qed.

Lemma smooth_landmarks_None buffer (w : Z) :
  smooth_landmarks buffer w = Ok None ↔ buffer = [].
Proof.
  unfold smooth_landmarks. destruct buffer as [|r rs]; [done|].
  split; [|done]. cbn [length Nat.ltb Nat.leb].
  by destruct (np_array (r :: rs)).
Qed.

End Smoothing.

(** ** The sampling loop *)

Section LoopProperties.
Context {F : Type} {PF : PyFloat F}.
Variables (s K w interval : Z) (dn : string).
Implicit Types (st : LoopState F) (lms : list (Landmark F)).

Lemma length_naive_mean (vs : list (list F)) n : length (naive_mean vs n) = n.
Proof. unfold naive_mean. by rewrite length_fmap, length_seq. Qed.

Lemma length_flat_take lms :
  (33 ≤ length lms)%nat → length (flat_map lm_coords (take 33 lms)) = 132%nat.
Proof. intros Hl. rewrite length_flat_coords, length_take. lia. Qed.

(** A successful detection: the buffer takes the raw vector, and, unless
    the window is zero, one record holding the mean of the buffer is appended. *)
Lemma on_detection_Ok lms st :
  (33 ≤ length lms)%nat → 0 ≤ w →
  Forall (λ v, length v = 132%nat) (frame_buffer st) →
  Z.of_nat (length (frame_buffer st)) ≤ w →
  ∃ data',
    on_detection s w dn lms st
    = Ok (mkLoopState (frame_count st) (sampled_frames st + 1)
            (deque_append w (frame_buffer st) (flat_map lm_coords (take 33 lms)))
            data' (read_calls st) (submitted st)) ∧
    ((w = 0 ∧ data' = data st) ∨
     (0 < w ∧ ∃ rec, data' = data st ++ [rec] ∧
        record_of_vector s (sampled_frames st + 1) dn
          (naive_mean (deque_append w (frame_buffer st)
                         (flat_map lm_coords (take 33 lms))) 132) rec)).
Proof.
  intros Hlms Hw Hbuf Hlen. unfold on_detection.
  rewrite flatten_landmarks_create, bind_Ok by done.
  pose proof (length_flat_take lms Hlms) as Hflat.
  destruct (decide (w = 0)) as [->|Hw0].
  - destruct (frame_buffer st) as [|v vs] eqn:Eb; [|simpl in Hlen; lia].
    exists (data st). split; [|by left]. reflexivity.
  - pose proof (deque_append_Forall _ w _ _ Hbuf Hflat) as Hbuf'.
    pose proof (deque_append_length w _ (flat_map lm_coords (take 33 lms)) Hw Hlen) as Hlen'.
    rewrite (smooth_landmarks_within _ _ 132), bind_Ok;
      [|apply deque_append_nonempty; lia|done|done].
    destruct (smoothed_fields_Ok
      (naive_mean (deque_append w (frame_buffer st)
                     (flat_map lm_coords (take 33 lms))) 132)) as (d & Hd & Hlook).
    { by rewrite length_naive_mean. }
    rewrite Hd, !bind_Ok. eexists. split; [reflexivity|]. right. split; [lia|].
    eexists. split; [reflexivity|]. by repeat split.
Qed.

(** A missing detection with two records or more behind it: the last two
    records are handed to the interpolator with [num_missing=1]. *)
Lemma on_missing_two st pre prev next :
  data st = pre ++ [prev; next] →
  on_missing st
  = (interpolated_frames ← interpolate_missing_frames prev next 1;
     Ok (mkLoopState (frame_count st) (sampled_frames st + 1) (frame_buffer st)
           (data st ++ interpolated_frames) (read_calls st) (submitted st))).
Proof.
  intros Hd.
  assert (Hlen : length (data st) = (length pre + 2)%nat)
    by (rewrite Hd, length_app; done).
  assert (Hprev : getidx_neg (data st) 2 = Ok prev).
  { unfold getidx_neg. rewrite (proj2 (Nat.leb_le _ _)) by lia.
    apply getidx_Some. rewrite Hd, length_app, lookup_app_r by (simpl; lia).
    by replace (_ - _)%nat with 0%nat by (simpl; lia). }
  assert (Hnext : getidx_neg (data st) 1 = Ok next).
  { unfold getidx_neg. rewrite (proj2 (Nat.leb_le _ _)) by lia.
    apply getidx_Some. rewrite Hd, length_app, lookup_app_r by (simpl; lia).
    by replace (_ - _)%nat with 1%nat by (simpl; lia). }
  unfold on_missing. rewrite (proj2 (Nat.leb_le _ _)) by lia.
  by rewrite Hprev, bind_Ok, Hnext, bind_Ok.
Qed.

(** A missing detection with fewer than two records behind it changes
    nothing. *)
Lemma on_missing_few st : (length (data st) < 2)%nat → on_missing st = Ok st.
Proof.
  intros Hl. unfold on_missing. by rewrite (proj2 (Nat.leb_gt _ _)) by lia.
Qed.

Lemma interpolate_one (prev next : FrameDict F) :
  has_landmark_keys prev → has_landmark_keys next →
  ∃ new, interpolate_missing_frames prev next 1 = Ok [new] ∧
    interpolated_at prev next 1 1 new ∧ has_landmark_keys new.
Proof.
  intros Hp Hn.
  destruct (interpolate_missing_frames_Ok prev next 1 Hp Hn) as (frames & Hf & HF).
  change (seqZ 1 1) with [1] in HF.
  apply Forall2_cons_inv_l in HF as (new & rest & Hnew & ->%Forall2_nil_inv_l & ->).
  exists new. repeat split; try done; try apply Hnew.
  intros key Hkey. destruct Hnew as (_ & _ & _ & Hlook). rewrite Hlook, decide_True by done.
  destruct (Hp key Hkey) as [p ->], (Hn key Hkey) as [n ->]. by eexists.
Qed.

Lemma list_last_two {A : Type} (l : list A) :
  (2 ≤ length l)%nat → ∃ pre a b, l = pre ++ [a; b].
Proof.
  intros Hl. destruct l as [|b l _] using rev_ind; [simpl in Hl; lia|].
  destruct l as [|a l _] using rev_ind; [simpl in Hl; lia|].
  exists l, a, b. by rewrite <- app_assoc.
Qed.

Local Ltac loop_finish :=
  try first [ done | lia | by left | by right
            | by apply deque_append_Forall | by apply deque_append_length
            | by apply prefix_app_r ].

(** One pass of the loop body keeps the invariant and moves on by one
    frame; it appends at most one record. *)
Lemma loop_body_Ok frame st :
  0 ≤ w → pose_complete frame →
  loop_inv s w interval dn st →
  ∃ st', loop_body s w interval dn frame st = Ok st' ∧
    loop_inv s w interval dn st' ∧
    frame_count st' = frame_count st + 1 ∧
    read_calls st' = read_calls st ∧
    (sampled_frames st' = sampled_frames st ∨ sampled_frames st' = sampled_frames st + 1) ∧
    data st `prefix_of` data st'.
Proof.
  intros Hw Hframe [Hdata Hbuf Hblen Hsamp Hsampeq Hcount Hsub]. unfold loop_body.
  destruct (Z.eqb_spec (frame_count st mod interval) 0) as [Hsel|Hsel].
  - assert (Hsub' : ∀ p, p ∈ submitted st ++ [frame_count st] ↔
                         0 ≤ p < frame_count st + 1 ∧ p mod interval = 0).
    { intros p. rewrite elem_of_app, list_elem_of_singleton, Hsub.
      split; [intros [[? ?]| ->]; split; (lia || done)|].
      intros [Hp Hm]. destruct (decide (p = frame_count st)); [by right|left; split; [lia|done]]. }
    destruct frame as [lms|].
    + destruct (on_detection_Ok lms
        (mkLoopState (frame_count st) (sampled_frames st) (frame_buffer st) (data st)
           (read_calls st) (submitted st ++ [frame_count st])))
        as (data' & -> & Hdata'); simpl; [done|done|done|done|].
      rewrite ?bind_Ok. eexists; split; [reflexivity|]. simpl.
      pose proof (length_flat_take lms Hframe) as Hflat.
      destruct Hdata' as [[-> ->]|(Hw0 & rec & -> & Hrec)].
      * split_and!; [constructor; simpl|..]; loop_finish.
      * split_and!; [constructor; simpl|..]; loop_finish.
        -- apply Forall_app; split; [done|]. apply Forall_singleton.
           split; [apply Hrec|split; [apply Hrec|]].
           eapply record_of_vector_keys; [|done]. by rewrite length_naive_mean.
        -- rewrite length_app; simpl. lia.
        -- intros _. rewrite length_app, Hsampeq by done. simpl. lia.
    + destruct (decide (2 ≤ length (data st))%nat) as [Hl|Hl].
      * destruct (list_last_two _ Hl) as (pre & prev & next & Hd).
        assert (Hkeys : has_landmark_keys prev ∧ has_landmark_keys next ∧
                        sample_number prev = s ∧ dance_name prev = dn).
        { rewrite Hd in Hdata. apply Forall_app in Hdata as [_ Hdata].
          apply Forall_cons in Hdata as [(? & ? & ?) Hdata].
          apply Forall_cons in Hdata as [(? & ? & ?) _]. done. }
        destruct Hkeys as (Hkp & Hkn & Hsp & Hdp).
        destruct (interpolate_one prev next Hkp Hkn) as (new & Hnew & Hat & Hknew).
        rewrite (on_missing_two _ pre prev next) by done. simpl.
        rewrite Hnew, ?bind_Ok. eexists; split; [reflexivity|]. simpl.
        destruct Hat as (Hs & _ & Hdn & _).
        split_and!; [constructor; simpl|..]; loop_finish.
        -- apply Forall_app; split; [done|]. apply Forall_singleton.
           split_and!; [congruence|congruence|done].
        -- rewrite length_app; simpl. lia.
        -- intros Hw0. rewrite length_app, Hsampeq by done. simpl. lia.
      * rewrite on_missing_few by (simpl; lia). rewrite ?bind_Ok.
        eexists; split; [reflexivity|]. simpl.
        split_and!; [constructor; simpl|..]; loop_finish.
  - rewrite ?bind_Ok. eexists; split; [reflexivity|]. simpl.
    split_and!; [constructor; simpl|..]; loop_finish.
    intros p. rewrite Hsub. split; [intros [? ?]; split; [lia|done]|].
    intros [? ?]. split; [|done].
    destruct (decide (p = frame_count st)); [congruence|lia].
Qed.

(** The record that the interpolator gives for a missing detection is
    numbered one past the record before the last one, which is the number
    the last record already has when the records are numbered in sequence. *)
Lemma interpolation_repeats_number st pre prev next :
  data st = pre ++ [prev; next] →
  has_landmark_keys prev → has_landmark_keys next →
  ∃ new,
    on_missing st
    = Ok (mkLoopState (frame_count st) (sampled_frames st + 1) (frame_buffer st)
            (data st ++ [new]) (read_calls st) (submitted st)) ∧
    frame_number new = frame_number prev + 1 ∧
    (numbered (data st) → frame_number new = frame_number next).
Proof.
  intros Hd Hp Hn. destruct (interpolate_one prev next Hp Hn) as (new & Hnew & Hat & _).
  exists new. rewrite (on_missing_two _ pre prev next), Hnew by done.
  destruct Hat as (_ & Hf & _). split_and!; [done|done|].
  unfold numbered. rewrite Hd, fmap_app, length_app, Nat2Z.inj_add. simpl.
  rewrite seqZ_app by lia. intros Hnum.
  apply app_inj_1 in Hnum as [_ Hnum]; [|by rewrite length_fmap, length_seqZ, Nat2Z.id].
  unfold seqZ in Hnum. simpl in Hnum. injection Hnum as Hprev Hnext. lia.
Qed.

(** A pass on a frame with a pose keeps the records numbered in
    sequence. *)
Lemma loop_body_detected lms st st' :
  0 < w → (33 ≤ length lms)%nat → loop_inv s w interval dn st →
  loop_body s w interval dn (Some lms) st = Ok st' →
  numbered (data st) → numbered (data st').
Proof.
  intros Hw Hlms Hinv Hrun Hnum. unfold loop_body in Hrun.
  destruct (frame_count st mod interval =? 0).
  - destruct (on_detection_Ok lms
      (mkLoopState (frame_count st) (sampled_frames st) (frame_buffer st) (data st)
         (read_calls st) (submitted st ++ [frame_count st])))
      as (data' & Hdet & [[-> _]|(_ & rec & -> & Hrec)]);
      cbn [frame_buffer frame_count sampled_frames data read_calls submitted];
      [done|lia|apply Hinv|apply Hinv|lia|].
    rewrite Hdet in Hrun. injection Hrun as <-. simpl.
    destruct Hrec as (_ & Hf & _). simpl in Hf.
    rewrite (inv_sampled_eq _ _ _ _ _ Hinv Hw) in Hf.
    unfold numbered in *. rewrite fmap_app, length_app, Nat2Z.inj_add, seqZ_app by lia.
    rewrite Hnum. f_equal. unfold seqZ. simpl. rewrite Hf. f_equal. lia.
  - by injection Hrun as <-.
Qed.

(** The mean of a single vector is that vector, when dividing by one
    changes nothing. *)
Lemma naive_mean_single (v : list F) n :
  (∀ x : F, fdiv x (of_int 1) = x) → length v = n → naive_mean [v] n = v.
Proof.
  intros Hdiv Hlen. unfold naive_mean. apply list_eq; intros j.
  rewrite list_lookup_fmap. destruct (decide (j < n)%nat) as [Hj|Hj].
  - rewrite lookup_seq_lt by done. simpl. rewrite Hdiv.
    destruct (lookup_lt_is_Some_2 v j) as [x Hx]; [lia|]. by rewrite Hx.
  - rewrite lookup_seq_ge, lookup_ge_None_2 by lia. done.
Qed.

(** A selected frame with a pose, met with an empty buffer: the record
    appended holds the raw values of the pose. *)
Lemma loop_body_first_detection lms st :
  (∀ x : F, fdiv x (of_int 1) = x) →
  0 < w → (33 ≤ length lms)%nat →
  frame_buffer st = [] → frame_count st mod interval = 0 →
  ∃ rec,
    loop_body s w interval dn (Some lms) st
    = Ok (mkLoopState (frame_count st + 1) (sampled_frames st + 1)
            [flat_map lm_coords (take 33 lms)] (data st ++ [rec])
            (read_calls st) (submitted st ++ [frame_count st])) ∧
    sample_number rec = s ∧ frame_number rec = sampled_frames st + 1 ∧
    dance_name rec = dn ∧
    ∀ idx j c, (idx < 33)%nat → coords !! j = Some c →
      landmark rec !! landmark_key idx c = lms !! idx ≫= λ lm, lm_coords lm !! j.
Proof.
  intros Hdiv Hw Hlms Hbuf Hsel. unfold loop_body.
  rewrite (proj2 (Z.eqb_eq _ _) Hsel).
  destruct (on_detection_Ok lms
    (mkLoopState (frame_count st) (sampled_frames st) (frame_buffer st) (data st)
       (read_calls st) (submitted st ++ [frame_count st])))
    as (data' & -> & [[-> _]|(_ & rec & -> & Hrec)]);
    cbn [frame_buffer frame_count sampled_frames data read_calls submitted];
    [done|lia|by rewrite Hbuf|rewrite Hbuf; simpl; lia|lia|].
  rewrite Hbuf, deque_append_first in * by done.
  rewrite naive_mean_single in Hrec by (done || by apply length_flat_take).
  destruct Hrec as (Hs & Hf & Hd & Hlook).
  exists rec. split_and!; try done.
  intros idx j c Hidx Hc. rewrite (Hlook _ _ _ Hidx Hc).
  rewrite lookup_flat_coords by (by eapply coords_lookup_lt).
  by rewrite lookup_take_lt.
Qed.

(** Counting a call of [cap.read()] does not touch the invariant. *)
Lemma loop_inv_read st :
  loop_inv s w interval dn st →
  loop_inv s w interval dn
    (mkLoopState (frame_count st) (sampled_frames st) (frame_buffer st) (data st)
       (S (read_calls st)) (submitted st)).
Proof. intros []. by constructor. Qed.

(** The loop never raises on a video whose poses are complete; it keeps
    the invariant, never counts past the target, only appends records, and
    when it ends below the target it has decoded every frame. *)
Lemma sampling_loop_Ok opened frames st :
  0 ≤ w → poses_complete frames → loop_inv s w interval dn st →
  ∃ st', sampling_loop s K w interval dn opened frames st = Ok st' ∧
    loop_inv s w interval dn st' ∧
    sampled_frames st ≤ sampled_frames st' ≤ Z.max K (sampled_frames st) ∧
    data st `prefix_of` data st' ∧
    frame_count st ≤ frame_count st' ≤ frame_count st + Z.of_nat (length frames) ∧
    (opened = true → sampled_frames st' < K →
       frame_count st' = frame_count st + Z.of_nat (length frames)).
Proof.
  intros Hw. revert st; induction frames as [|frame frames IH]; intros st Hposes Hinv.
  - exists (if opened && (sampled_frames st <? K)
            then mkLoopState (frame_count st) (sampled_frames st) (frame_buffer st)
                   (data st) (S (read_calls st)) (submitted st)
            else st).
    simpl. destruct (opened && _); simpl; split_and!; try done; try lia.
    by apply loop_inv_read.
  - apply Forall_cons in Hposes as [Hframe Hposes]. cbn [sampling_loop].
    destruct opened; [destruct (Z.ltb_spec (sampled_frames st) K) as [Hlt|Hge]|]; simpl andb; cbv iota.
    + destruct (loop_body_Ok frame _ Hw Hframe (loop_inv_read _ Hinv))
        as (st1 & -> & Hinv1 & Hfc1 & _ & Hs1 & Hpre1).
      rewrite bind_Ok. simpl in Hfc1, Hs1, Hpre1.
      destruct (IH st1 Hposes Hinv1) as (st' & -> & Hinv' & Hs' & Hpre' & Hfc' & Hall).
      exists st'. split_and!; try done; try lia.
      * by etrans.
      * rewrite length_cons. lia.
      * intros _ Hlow. rewrite Hall by done. rewrite length_cons. lia.
    + exists st. split_and!; try done; try lia.
    + exists st. split_and!; try done; try lia.
Qed.

(** Cutting the video after [m] frames: if the loop needed more than [m]
    frames, the cut run ends below the target; otherwise the cut run gives
    the same records. *)
Lemma sampling_loop_take opened frames st st' (m : nat) :
  0 ≤ w → poses_complete frames → loop_inv s w interval dn st →
  sampling_loop s K w interval dn opened frames st = Ok st' →
  ∃ stm, sampling_loop s K w interval dn opened (take m frames) st = Ok stm ∧
    if decide (Z.of_nat m < frame_count st' - frame_count st)
    then sampled_frames stm < K
    else data stm = data st' ∧ sampled_frames stm = sampled_frames st' ∧
         frame_count stm = frame_count st'.
Proof.
  intros Hw. revert st m; induction frames as [|frame frames IH]; intros st m Hposes Hinv Hrun.
  - rewrite take_nil. exists st'. split; [done|].
    simpl in Hrun. rewrite decide_False; [done|].
    destruct (opened && _); injection Hrun as <-; simpl; lia.
  - apply Forall_cons in Hposes as [Hframe Hposes]. cbn [sampling_loop] in Hrun.
    destruct (opened && (sampled_frames st <? K)) eqn:Hguard.
    + destruct (loop_body_Ok frame _ Hw Hframe (loop_inv_read _ Hinv))
        as (st1 & Hbody & Hinv1 & Hfc1 & _ & Hs1 & Hpre1).
      rewrite Hbody, bind_Ok in Hrun. simpl in Hfc1.
      destruct (sampling_loop_Ok opened frames st1 Hw Hposes Hinv1)
        as (st'' & Hrun' & _ & _ & _ & Hfc' & _).
      rewrite Hrun in Hrun'. injection Hrun' as <-.
      destruct m as [|m].
      * rewrite take_0. eexists. cbn [sampling_loop]. rewrite Hguard. split; [done|].
        rewrite decide_True by lia. simpl.
        apply andb_true_iff in Hguard as [_ Hlt]. by apply Z.ltb_lt.
      * rewrite firstn_cons. cbn [sampling_loop]. rewrite Hguard, Hbody, bind_Ok.
        destruct (IH st1 m Hposes Hinv1 Hrun) as (stm & -> & Hm).
        exists stm. split; [done|].
        destruct (decide (Z.of_nat m < _)).
        -- rewrite decide_True by lia. done.
        -- rewrite decide_False by lia. done.
    + injection Hrun as <-. exists st. split.
      * destruct m; [rewrite take_0|rewrite firstn_cons]; cbn [sampling_loop];
          by rewrite ?Hguard; destruct opened.
      * rewrite decide_False by lia. done.
Qed.

(** When the detector finds a pose on every frame, the loop keeps the
    records numbered in sequence. *)
Lemma sampling_loop_numbered opened frames st st' :
  0 < w → poses_complete frames → Forall is_Some frames →
  loop_inv s w interval dn st → numbered (data st) →
  sampling_loop s K w interval dn opened frames st = Ok st' →
  numbered (data st').
Proof.
  intros Hw. revert st; induction frames as [|frame frames IH];
    intros st Hposes Hsome Hinv Hnum Hrun; cbn [sampling_loop] in Hrun.
  - by destruct (opened && _); injection Hrun as <-.
  - apply Forall_cons in Hposes as [Hframe Hposes].
    apply Forall_cons in Hsome as [[lms ->] Hsome].
    destruct (opened && _); [|by injection Hrun as <-].
    destruct (loop_body_Ok (Some lms) _ ltac:(lia) Hframe (loop_inv_read _ Hinv))
      as (st1 & Hbody & Hinv1 & _).
    rewrite Hbody, bind_Ok in Hrun.
    apply (IH st1 Hposes Hsome Hinv1); [|done].
    apply (loop_body_detected lms _ st1 Hw Hframe (loop_inv_read _ Hinv) Hbody). exact Hnum.
Qed.

End LoopProperties.

(** ** Metadata of the records, on every run that returns *)

(** Inverts [m ≫= f = Ok b]: [m] returned, and [f] of its value is [Ok b]. *)
Ltac bind_inv H :=
  repeat match type of H with
  | mbind _ ?m = Ok _ =>
      let E := fresh "E" in
      destruct m eqn:E; [rewrite bind_Ok in H | discriminate H]
  end.

Section Metadata.
Context {F : Type} {PF : PyFloat F}.
Variables (s K w interval : Z) (dn : string).
Implicit Types (st : LoopState F) (fr : FrameDict F).

Lemma getidx_neg_elem {A : Type} (l : list A) k x : getidx_neg l k = Ok x → x ∈ l.
Proof.
  unfold getidx_neg, getidx. case_match; [|done].
  destruct (l !! _) eqn:E; [|done]. intros [= <-]. by eapply list_elem_of_lookup_2.
Qed.

(** Whatever the interpolator returns copies its metadata from
    [prev_frame]. *)
Lemma interpolate_missing_frames_meta (prev next : FrameDict F) n fs :
  interpolate_missing_frames prev next n = Ok fs →
  Forall (λ fr, sample_number fr = sample_number prev ∧
                dance_name fr = dance_name prev) fs.
Proof.
  unfold interpolate_missing_frames.
  match goal with |- foldM ?f _ _ = _ → _ => set (body := f) end.
  enough (G : ∀ l acc,
            Forall (λ fr, sample_number fr = sample_number prev ∧
                          dance_name fr = dance_name prev) acc →
            foldM body acc l = Ok fs →
            Forall (λ fr, sample_number fr = sample_number prev ∧
                          dance_name fr = dance_name prev) fs).
  { apply G. constructor. }
  induction l as [|i l IH]; intros acc Hacc Hrun.
  - by injection Hrun as <-.
  - cbn [foldM] in Hrun. bind_inv Hrun.
    unfold body in E at 1. cbv zeta in E. bind_inv E. injection E as <-.
    apply (IH (acc ++ [mkFrameDict (sample_number prev) (frame_number prev + i)
                         (dance_name prev) a0])); [|done].
    apply Forall_app; split; [done|]. by apply Forall_singleton.
Qed.

Let tagged : FrameDict F → Prop := tagged_with s dn.

Lemma on_detection_meta lms st st' :
  on_detection s w dn lms st = Ok st' →
  Forall tagged (data st) → Forall tagged (data st').
Proof.
  unfold on_detection. intros Hrun Hd. bind_inv Hrun.
  destruct a0 as [sm|]; bind_inv E1; injection E1 as <-; injection Hrun as <-; simpl; [|done].
  apply Forall_app; split; [done|]. by apply Forall_singleton.
Qed.

Lemma on_missing_meta st st' :
  on_missing st = Ok st' → Forall tagged (data st) → Forall tagged (data st').
Proof.
  unfold on_missing. intros Hrun Hd. case_match; [|by injection Hrun as <-].
  bind_inv Hrun. injection Hrun as <-. simpl.
  apply Forall_app; split; [done|].
  apply getidx_neg_elem in E. apply (proj1 (Forall_forall _ _) Hd) in E as [Hs Hn].
  apply interpolate_missing_frames_meta in E1.
  eapply Forall_impl; [exact E1|]. intros fr [? ?]. split; congruence.
Qed.

Lemma loop_body_meta frame st st' :
  loop_body s w interval dn frame st = Ok st' →
  Forall tagged (data st) → Forall tagged (data st').
Proof.
  unfold loop_body. intros Hrun Hd. bind_inv Hrun. injection Hrun as <-. simpl.
  case_match; [|by injection E as <-].
  destruct frame as [lms|].
  - by apply on_detection_meta in E.
  - by apply on_missing_meta in E.
Qed.

Lemma sampling_loop_meta opened frames st st' :
  sampling_loop s K w interval dn opened frames st = Ok st' →
  Forall tagged (data st) → Forall tagged (data st').
Proof.
  revert st; induction frames as [|frame frames IH]; intros st Hrun Hd;
    cbn [sampling_loop] in Hrun; case_match; try (by injection Hrun as <-).
  bind_inv Hrun. apply (IH _ Hrun). by apply loop_body_meta in E.
Qed.

End Metadata.

(** ** process_video *)

Section ProcessVideo.
Context {F : Type} {PF : PyFloat F}.
Implicit Types (v : Video F) (st : LoopState F) (fr : FrameDict F).

Lemma loop_inv_init (s w interval : Z) dn :
  0 ≤ w → loop_inv (F:=F) s w interval dn (mkLoopState 0 0 [] [] 0 []).
Proof.
  intros Hw. constructor; simpl; try done; try lia.
  intros p. split; [by intros ?%elem_of_nil|lia].
Qed.

(** On a video whose poses are complete, with a non-zero target and a
    window that is not negative, [process_video] returns, in a state that
    satisfies the loop invariant. *)
Lemma process_video_run_Ok v (s K w : Z) :
  K ≠ 0 → 0 ≤ w → poses_complete (cap_frames v) →
  ∃ st, process_video_run v s K w = Ok st ∧
    loop_inv s w (Z.max 1 (cap_frame_count v / K))
      (extract_dance_name (basename (video_path v)) VALID_DANCE_NAMES) st ∧
    0 ≤ sampled_frames st ≤ Z.max K 0 ∧
    frame_count st ≤ Z.of_nat (length (cap_frames v)) ∧
    (cap_frame_count v ≠ 0 →
     extract_dance_name (basename (video_path v)) VALID_DANCE_NAMES ≠ "unknown" →
     cap_isOpened v = true → sampled_frames st < K →
     frame_count st = Z.of_nat (length (cap_frames v))).
Proof.
  intros HK Hw Hposes. unfold process_video_run.
  destruct (Z.eqb_spec (cap_frame_count v) 0) as [Hz|Hnz].
  { exists skipped. split_and!; simpl; try done; try lia. by apply loop_inv_init. }
  unfold floordiv. rewrite (proj2 (Z.eqb_neq K 0)), bind_Ok by done.
  destruct (String.eqb_spec
    (extract_dance_name (basename (video_path v)) VALID_DANCE_NAMES) "unknown") as [Hu|Hk].
  { exists skipped. split_and!; simpl; try done; try lia. by apply loop_inv_init. }
  unfold deque_new. rewrite (proj2 (Z.ltb_ge w 0)), bind_Ok by done.
  destruct (sampling_loop_Ok s K w (Z.max 1 (cap_frame_count v / K))
    (extract_dance_name (basename (video_path v)) VALID_DANCE_NAMES)
    (cap_isOpened v) (cap_frames v) (mkLoopState 0 0 [] [] 0 []) Hw Hposes
    (loop_inv_init _ _ _ _ Hw)) as (st & Hrun & Hinv & Hs & _ & Hfc & Hall).
  simpl in Hs, Hfc, Hall. exists st. split_and!; try done; try lia.
Qed.

(** Every record of a run that returns carries the sample number and the
    category resolved from the file name, which is not the sentinel. *)
Lemma process_video_run_meta v (s K w : Z) st :
  process_video_run v s K w = Ok st →
  Forall (λ fr, sample_number fr = s ∧
                dance_name fr
                = extract_dance_name (basename (video_path v)) VALID_DANCE_NAMES ∧
                dance_name fr ≠ "unknown") (data st).
Proof.
  unfold process_video_run. intros Hrun.
  destruct (cap_frame_count v =? 0); [by injection Hrun as <-|].
  bind_inv Hrun.
  destruct (String.eqb_spec
    (extract_dance_name (basename (video_path v)) VALID_DANCE_NAMES) "unknown") as [Hu|Hk];
    [by injection Hrun as <-|].
  bind_inv Hrun. apply sampling_loop_meta in Hrun; [|by constructor].
  eapply Forall_impl; [exact Hrun|]. intros fr [? ?]. split_and!; congruence.
Qed.

Lemma process_video_data v (s K w : Z) st :
  process_video_run v s K w = Ok st → process_video v s K w = Ok (data st).
Proof. unfold process_video. by intros ->. Qed.

Lemma process_video_data_inv v (s K w : Z) d :
  process_video v s K w = Ok d → ∃ st, process_video_run v s K w = Ok st ∧ d = data st.
Proof.
  unfold process_video. destruct (process_video_run v s K w) as [st|]; [|done].
  intros [= <-]. by exists st.
Qed.

(** Cutting the video after [m] frames, at the level of the whole
    function. *)
Lemma process_video_run_take v (s K w : Z) st (m : nat) :
  K ≠ 0 → 0 ≤ w → poses_complete (cap_frames v) →
  process_video_run v s K w = Ok st →
  ∃ stm, process_video_run (first_frames m v) s K w = Ok stm ∧
    if decide (Z.of_nat m < frame_count st)
    then Z.of_nat (length (data stm)) ≤ sampled_frames stm < K
    else data stm = data st.
Proof.
  intros HK Hw Hposes Hrun.
  assert (Hposes' : poses_complete (cap_frames (first_frames m v))) by (by apply Forall_take).
  destruct (process_video_run_Ok (first_frames m v) s K w HK Hw Hposes')
    as (stm & Hrunm & Hinvm & _).
  exists stm. split; [done|].
  unfold process_video_run, first_frames in Hrun, Hrunm.
  cbn [cap_frame_count video_path cap_isOpened cap_frames] in Hrunm.
  destruct (cap_frame_count v =? 0).
  { injection Hrun as <-. injection Hrunm as <-. by rewrite decide_False by (simpl; lia). }
  bind_inv Hrun. rewrite bind_Ok in Hrunm.
  destruct (String.eqb _ "unknown").
  { injection Hrun as <-. injection Hrunm as <-. by rewrite decide_False by (simpl; lia). }
  bind_inv Hrun. rewrite bind_Ok in Hrunm.
  unfold floordiv in E. rewrite (proj2 (Z.eqb_neq K 0)) in E by done. injection E as <-.
  unfold deque_new in E0. rewrite (proj2 (Z.ltb_ge w 0)) in E0 by done. injection E0 as <-.
  destruct (sampling_loop_take s K w _ _ _ _ _ _ m Hw Hposes (loop_inv_init _ _ _ _ Hw) Hrun)
    as (stm' & Hrunm' & Hm).
  rewrite Hrunm in Hrunm'. injection Hrunm' as <-. simpl in Hm.
  rewrite Z.sub_0_r in Hm. case_decide; [|by destruct Hm].
  pose proof (inv_sampled _ _ _ _ _ Hinvm). lia.
Qed.

(** X24. Without a missing detection the numbering is contiguous: when
    the detector finds a pose on every frame, [process_video] returns and the
    records are numbered 1, 2, ..., [len]. *)
Lemma process_video_numbered_all_detected v (s K w : Z) :
  K ≠ 0 → 0 < w → poses_complete (cap_frames v) → Forall is_Some (cap_frames v) →
  ∃ records, process_video v s K w = Ok records ∧ numbered records.
Proof.
  intros HK Hw Hposes Hsome.
  destruct (process_video_run_Ok v s K w HK ltac:(lia) Hposes) as (st & Hrun & _).
  exists (data st). split; [by apply process_video_data|].
  unfold process_video_run in Hrun.
  destruct (cap_frame_count v =? 0); [by injection Hrun as <-|].
  bind_inv Hrun. destruct (String.eqb _ "unknown"); [by injection Hrun as <-|].
  bind_inv Hrun. unfold deque_new in E0. destruct (w <? 0) eqn:Ew; [done|].
  injection E0 as <-.
  assert (H0 : 0 ≤ w) by lia.
  apply (sampling_loop_numbered s K w _ _ _ _ _ st Hw Hposes Hsome
           (loop_inv_init _ _ _ _ H0) eq_refl Hrun).
Qed.

(** The first record of a run.  When the detector finds a pose on the
    first frame, which is always selected, the first record returned holds
    the raw values of that pose. *)
Lemma process_video_first_record v (s K w : Z) lms rest :
  (∀ x : F, fdiv x (of_int 1) = x) →
  cap_frame_count v ≠ 0 → 0 < K → 0 < w → cap_isOpened v = true →
  extract_dance_name (basename (video_path v)) VALID_DANCE_NAMES ≠ "unknown" →
  cap_frames v = Some lms :: rest → poses_complete (cap_frames v) →
  ∃ rec records,
    process_video v s K w = Ok (rec :: records) ∧
    frame_number rec = 1 ∧
    ∀ idx j c, (idx < 33)%nat → coords !! j = Some c →
      landmark rec !! landmark_key idx c = lms !! idx ≫= λ lm, lm_coords lm !! j.
Proof.
  intros Hdiv Htotal HK Hw Hop Hknown Hframes Hposes.
  rewrite Hframes in Hposes. apply Forall_cons in Hposes as [Hlms Hposes].
  unfold process_video, process_video_run, floordiv, deque_new.
  rewrite (proj2 (Z.eqb_neq _ 0) Htotal), (proj2 (Z.eqb_neq K 0)), bind_Ok by lia.
  rewrite (proj2 (String.eqb_neq _ _) Hknown), (proj2 (Z.ltb_ge w 0)), bind_Ok by lia.
  rewrite Hframes, Hop.
  cbn [sampling_loop frame_count sampled_frames frame_buffer data read_calls submitted andb].
  rewrite (proj2 (Z.ltb_lt 0 K) HK).
  set (interval := Z.max 1 (cap_frame_count v / K)).
  set (dn := extract_dance_name (basename (video_path v)) VALID_DANCE_NAMES).
  destruct (loop_body_first_detection s w interval dn lms (mkLoopState 0 0 [] [] 1 []) Hdiv Hw Hlms)
    as (rec & Hbody & _ & Hnum & _ & Hlook); [done|done|].
  destruct (loop_body_Ok s w interval dn (Some lms) (mkLoopState 0 0 [] [] 1 []))
    as (st1 & Hbody' & Hinv1 & _); [lia|done| |].
  { apply (loop_inv_read _ _ _ _ (mkLoopState 0 0 [] [] 0 [])), loop_inv_init. lia. }
  assert (Hdata1 : data st1 = [rec]).
  { rewrite Hbody' in Hbody. by injection Hbody as ->. }
  rewrite Hbody', bind_Ok.
  destruct (sampling_loop_Ok s K w interval dn true rest _ ltac:(lia) Hposes Hinv1)
    as (st' & -> & _ & _ & [records Hpre] & _).
  rewrite Hdata1 in Hpre. exists rec, records.
  split_and!; [cbn; by rewrite Hpre|done|done].
Qed.

(** C7. A video whose reported frame count is 0 makes [process_video]
    return the empty sequence: no exception, no call of [cap.read()] and no
    frame submitted to the detector, whatever the other arguments are. *)
Theorem process_video_zero_frames v (s K w : Z) :
  cap_frame_count v = 0 →
  ∃ st, process_video_run v s K w = Ok st ∧
    process_video v s K w = Ok [] ∧
    data st = [] ∧ read_calls st = 0%nat ∧ submitted st = [].
Proof.
  intros Hz. exists skipped. unfold process_video, process_video_run.
  by rewrite Hz.
Qed.

(** C8. No record that [process_video] returns carries the sentinel
    ['unknown']; and when the lowercased file name contains no term of the
    vocabulary, the labeller answers the sentinel and [process_video] returns
    the empty sequence without reading a frame.  The target must not be zero
    there, unless the reported frame count is: the interval is computed, and
    the division raises, before the name is looked at. *)
Theorem process_video_unrecognized v (s K w : Z) :
  (∀ records, process_video v s K w = Ok records →
     Forall (λ fr, dance_name fr ≠ "unknown") records) ∧
  (K ≠ 0 ∨ cap_frame_count v = 0 →
   (∀ dance, dance ∈ VALID_DANCE_NAMES →
      contains (lower dance) (lower (basename (video_path v))) = false) →
   extract_dance_name (basename (video_path v)) VALID_DANCE_NAMES = "unknown" ∧
   process_video v s K w = Ok [] ∧
   ∃ st, process_video_run v s K w = Ok st ∧ read_calls st = 0%nat ∧ submitted st = []).
Proof.
  split.
  - intros records (st & Hrun & ->)%process_video_data_inv.
    eapply Forall_impl; [by apply process_video_run_meta in Hrun|].
    by intros fr (_ & _ & ?).
  - intros HK Hno. apply extract_dance_name_unknown in Hno.
    split; [done|]. unfold process_video, process_video_run, floordiv.
    destruct (Z.eqb_spec (cap_frame_count v) 0) as [Hz|Hnz];
      [simpl; split; [done|by exists skipped]|].
    destruct HK as [HK|HK]; [|done].
    rewrite Hno, (proj2 (Z.eqb_neq K 0)) by done.
    simpl; (split; [done|by exists skipped]).
Qed.

(** C9. Every record that [process_video] returns carries the
    [sample_number] argument and the category resolved from the file name,
    whether it was written after a detection or by the interpolator; and the
    function does return on a video whose poses are complete. *)
Theorem process_video_metadata v (s K w : Z) :
  (∀ records, process_video v s K w = Ok records →
     Forall (λ fr, sample_number fr = s ∧
                   dance_name fr
                   = extract_dance_name (basename (video_path v)) VALID_DANCE_NAMES)
       records) ∧
  (K ≠ 0 → 0 ≤ w → poses_complete (cap_frames v) →
   ∃ records, process_video v s K w = Ok records).
Proof.
  split.
  - intros records (st & Hrun & ->)%process_video_data_inv.
    eapply Forall_impl; [by apply process_video_run_meta in Hrun|].
    by intros fr (? & ? & _).
  - intros HK Hw Hposes.
    destruct (process_video_run_Ok v s K w HK Hw Hposes) as (st & Hrun & _).
    exists (data st). by apply process_video_data.
Qed.

(** C5. With a reported frame count of at least 1 and a positive target
    [K], [process_video] returns between 0 and [K] records, at most one per
    counted frame, and exactly one when the window is at least 1.  The loop
    ends with the count at [K] or with every frame decoded; it needed
    [frame_count] frames: the video cut to fewer frames ends with a count
    below [K], and cut to that many or more gives the same records. *)
Theorem process_video_length v (s K w : Z) :
  1 ≤ cap_frame_count v → 0 < K → 0 ≤ w → poses_complete (cap_frames v) →
  ∃ st, process_video_run v s K w = Ok st ∧
    process_video v s K w = Ok (data st) ∧
    0 ≤ Z.of_nat (length (data st)) ≤ K ∧
    Z.of_nat (length (data st)) ≤ sampled_frames st ≤ K ∧
    (0 < w → sampled_frames st = Z.of_nat (length (data st))) ∧
    0 ≤ frame_count st ≤ Z.of_nat (length (cap_frames v)) ∧
    (cap_isOpened v = true →
     extract_dance_name (basename (video_path v)) VALID_DANCE_NAMES ≠ "unknown" →
     sampled_frames st = K ∨
     frame_count st = Z.of_nat (length (cap_frames v))) ∧
    (∀ m : nat, Z.of_nat m < frame_count st →
       ∃ stm, process_video_run (first_frames m v) s K w = Ok stm ∧
              Z.of_nat (length (data stm)) ≤ sampled_frames stm < K) ∧
    (∀ m : nat, frame_count st ≤ Z.of_nat m →
       process_video (first_frames m v) s K w = Ok (data st)).
Proof.
  intros Htotal HK Hw Hposes.
  destruct (process_video_run_Ok v s K w) as (st & Hrun & Hinv & Hs & Hfc & Hall);
    [lia|lia|done|].
  pose proof (inv_sampled _ _ _ _ _ Hinv) as Hle.
  pose proof (inv_sampled_eq _ _ _ _ _ Hinv) as Heq.
  pose proof (inv_count _ _ _ _ _ Hinv) as H0.
  exists st. split_and!; try done; try lia.
  - by apply process_video_data.
  - intros Hop Hknown.
    destruct (decide (sampled_frames st < K)) as [Hlow|Hhigh]; [right|left; lia].
    apply Hall; (done || lia).
  - intros m Hm.
    destruct (process_video_run_take v s K w st m) as (stm & Hrunm & Hcut); [lia|lia|done|done|].
    rewrite decide_True in Hcut by done. by exists stm.
  - intros m Hm.
    destruct (process_video_run_take v s K w st m) as (stm & Hrunm & Hcut); [lia|lia|done|done|].
    rewrite decide_False in Hcut by lia. rewrite <- Hcut. by apply process_video_data.
Qed.

End ProcessVideo.


(** ** The two branches of a selected frame *)

Section SelectedFrame.
Context {F : Type} {PF : PyFloat F}.
Variables (s w interval : Z) (dn : string).
Implicit Types (st : LoopState F) (lms : list (Landmark F)).

(** C10. On the first successful detection (the buffer is empty before
    the raw vector is pushed, the window is at least 1), the record appended
    holds the raw detected values: entry ['landmark_{idx}_{coord}'] is that
    coordinate of landmark [idx], for each of the 33 landmarks and 4
    coordinates.  Dividing by one is assumed to change nothing, as it does
    for floats. *)
Theorem first_detection_raw lms st :
  (∀ x : F, fdiv x (of_int 1) = x) →
  0 < w → (33 ≤ length lms)%nat →
  frame_buffer st = [] → frame_count st mod interval = 0 →
  ∃ rec,
    loop_body s w interval dn (Some lms) st
    = Ok (mkLoopState (frame_count st + 1) (sampled_frames st + 1)
            [flat_map lm_coords (take 33 lms)] (data st ++ [rec])
            (read_calls st) (submitted st ++ [frame_count st])) ∧
    sample_number rec = s ∧ frame_number rec = sampled_frames st + 1 ∧
    dance_name rec = dn ∧
    ∀ idx j c, (idx < 33)%nat → coords !! j = Some c →
      landmark rec !! landmark_key idx c = lms !! idx ≫= λ lm, lm_coords lm !! j.
Proof. apply loop_body_first_detection. Qed.

(** C4. A selected frame for which the detector found no pose.  With two
    records or more accumulated, the last two are handed to the interpolator
    with [num_missing=1], what it returns is appended and the sampled count
    goes up by one; those two records carrying the landmark keys, it returns
    exactly one frame.  With fewer than two records the pass returns without
    an exception, with the same records and the same sampled count. *)
Theorem missing_detection_policy st :
  frame_count st mod interval = 0 →
  ((2 ≤ length (data st))%nat →
     ∃ pre prev next, data st = pre ++ [prev; next] ∧
       loop_body s w interval dn None st
       = (interpolated_frames ← interpolate_missing_frames prev next 1;
          Ok (mkLoopState (frame_count st + 1) (sampled_frames st + 1) (frame_buffer st)
                (data st ++ interpolated_frames) (read_calls st)
                (submitted st ++ [frame_count st]))) ∧
       (has_landmark_keys prev → has_landmark_keys next →
          ∃ new, interpolate_missing_frames prev next 1 = Ok [new] ∧
                 interpolated_at prev next 1 1 new)) ∧
  ((length (data st) < 2)%nat →
     loop_body s w interval dn None st
     = Ok (mkLoopState (frame_count st + 1) (sampled_frames st) (frame_buffer st)
             (data st) (read_calls st) (submitted st ++ [frame_count st]))).
Proof.
  intros Hsel. unfold loop_body. rewrite (proj2 (Z.eqb_eq _ _) Hsel). split.
  - intros Hl. destruct (list_last_two _ Hl) as (pre & prev & next & Hd).
    exists pre, prev, next. split_and!; [done| |].
    + rewrite (on_missing_two _ pre prev next) by done.
      cbn [frame_buffer frame_count sampled_frames data read_calls submitted].
      by destruct (interpolate_missing_frames prev next 1).
    + intros Hp Hn. destruct (interpolate_one prev next Hp Hn) as (new & ? & ? & _).
      by exists new.
  - intros Hl. by rewrite on_missing_few.
Qed.

End SelectedFrame.

(** C3. On a buffer of [n] vectors of length 132 with [1 ≤ n ≤
    smoothing_window], [smooth_landmarks] returns the naive mean of all the
    vectors held (per component, their sum divided by [n]); and it returns
    [None] exactly when the buffer is empty. *)
Theorem smooth_landmarks_mean {F : Type} {PF : PyFloat F}
    (buffer : list (list F)) (smoothing_window : Z) :
  ((1 ≤ length buffer)%nat → Z.of_nat (length buffer) ≤ smoothing_window →
   Forall (λ v, length v = 132%nat) buffer →
   smooth_landmarks buffer smoothing_window = Ok (Some (naive_mean buffer 132))) ∧
  (smooth_landmarks buffer smoothing_window = Ok None ↔ buffer = []).
Proof.
  split; [|apply smooth_landmarks_None].
  intros Hn Hw Hall. apply smooth_landmarks_within; [|done|done].
  intros ->. simpl in Hn. lia.
Qed.

(** ** The contract of the interpolator *)

Lemma landmark_keys_distinct : length landmark_keys = 132%nat ∧ NoDup landmark_keys.
Proof. split; [reflexivity|]. apply (bool_decide_unpack _). vm_compute. exact I. Qed.

(** In exact arithmetic the frame synthesized for [num_missing = 1] holds
    the midpoint of the two values. *)
Lemma interpolate_midpoint_exact (prev_frame next_frame : FrameDict Q) :
  has_landmark_keys prev_frame → has_landmark_keys next_frame →
  ∃ fr, interpolate_missing_frames prev_frame next_frame 1 = Ok [fr] ∧
    ∀ key, key ∈ landmark_keys →
      ∃ p n v, landmark prev_frame !! key = Some p ∧
               landmark next_frame !! key = Some n ∧
               landmark fr !! key = Some v ∧ (v == (p + n) / 2)%Q.
Proof.
  intros Hp Hn.
  destruct (interpolate_missing_frames_Ok prev_frame next_frame 1 Hp Hn)
    as (frames & Hrun & HF).
  change (seqZ 1 1) with [1] in HF.
  apply Forall2_cons_inv_l in HF as (fr & rest & Hat & ->%Forall2_nil_inv_l & ->).
  exists fr. split; [done|]. intros key Hkey.
  destruct (Hp key Hkey) as [p Hpk], (Hn key Hkey) as [n Hnk].
  destruct Hat as (_ & _ & _ & Hlook).
  eexists p, n, _. split_and!; [done|done|by rewrite Hlook, decide_True, Hpk, Hnk|].
  cbn. change (inject_Z (1 + 1)) with 2%Q. change (inject_Z 1) with 1%Q. field.
Qed.


(** ** Runs on concrete inputs *)

(** C1. On a clip named after a dance, with two detections, a frame
    without a pose and one more detection, [process_video] returns four
    records numbered 1, 2, 2, 4: the interpolated record repeats the number
    of the record before it and the number 3 is never given, so the numbers
    are not the run 1, 2, 3, 4. *)
Theorem process_video_frame_numbers_repeat :
  ∃ records,
    process_video Demo.v_gap 7 4 5 = Ok records ∧
    frame_number <$> records = [1; 2; 2; 4] ∧
    ¬ numbered records.
Proof.
  assert (Hn : (λ d : list (FrameDict Q), frame_number <$> d) <$> process_video Demo.v_gap 7 4 5
               = Ok [1; 2; 2; 4]).
  { vm_compute. reflexivity. }
  destruct (process_video Demo.v_gap 7 4 5) as [records|e]; [|discriminate Hn].
  exists records. injection Hn as Hn. split_and!; [done|done|].
  unfold numbered. rewrite <- (length_fmap frame_number), Hn. discriminate.
Qed.

(** ** The theorems at work on the demo inputs *)

(** Dividing a rational by one gives back the same fraction. *)
Lemma Qdiv_one (x : Q) : fdiv x (of_int 1) = x.
Proof.
  destruct x as [a b]. cbn. unfold Qdiv, Qmult, Qinv. cbn.
  by rewrite Z.mul_1_r, Pos.mul_1_r.
Qed.

Ltac solve_keys := apply (bool_decide_unpack _); vm_compute; exact I.
Ltac solve_poses :=
  repeat first [ apply Forall_nil_2
               | apply Forall_cons_2; [vm_compute; first [exact I | lia]|] ].

Lemma process_video_zero_frames_witness :
  cap_frame_count Demo.v0 = 0 ∧ process_video Demo.v0 7 96 5 = Ok [].
Proof.
  split; [reflexivity|].
  destruct (process_video_zero_frames Demo.v0 7 96 5 eq_refl) as (st & _ & Hdata & _).
  exact Hdata.
Defined.

Lemma process_video_unrecognized_witness :
  (96 ≠ 0 ∧
   ∀ dance, dance ∈ VALID_DANCE_NAMES →
     contains (lower dance) (lower (basename (video_path Demo.v_clip))) = false) ∧
  process_video Demo.v_clip 7 96 5 = Ok [].
Proof.
  assert (Hno : ∀ dance, dance ∈ VALID_DANCE_NAMES →
            contains (lower dance) (lower (basename (video_path Demo.v_clip))) = false).
  { intros dance Hd. unfold VALID_DANCE_NAMES in Hd.
    repeat (apply elem_of_cons in Hd as [->|Hd]; [reflexivity|]).
    by apply elem_of_nil in Hd. }
  split; [split; [lia|exact Hno]|].
  apply (proj2 (process_video_unrecognized Demo.v_clip 7 96 5)); [left; lia|exact Hno].
Defined.

Lemma process_video_metadata_witness :
  (3 ≠ 0 ∧ 0 ≤ 5 ∧ poses_complete (cap_frames Demo.v1)) ∧
  ∃ records, process_video Demo.v1 7 3 5 = Ok records ∧
    Forall (λ fr, sample_number fr = 7 ∧ dance_name fr = "griddy") records.
Proof.
  assert (Hposes : poses_complete (cap_frames Demo.v1)) by solve_poses.
  split; [split_and!; [lia|lia|exact Hposes]|].
  destruct (process_video_metadata Demo.v1 7 3 5) as [Hmeta Hret].
  destruct Hret as [records Hrec]; [lia|lia|exact Hposes|].
  exists records. split; [exact Hrec|]. exact (Hmeta records Hrec).
Defined.

Lemma process_video_length_witness :
  (1 ≤ cap_frame_count Demo.v1 ∧ 0 < 3 ∧ 0 ≤ 5 ∧ poses_complete (cap_frames Demo.v1)) ∧
  ∃ st, process_video_run Demo.v1 7 3 5 = Ok st ∧ 0 ≤ Z.of_nat (length (data st)) ≤ 3.
Proof.
  assert (Hposes : poses_complete (cap_frames Demo.v1)) by solve_poses.
  split; [split_and!; [vm_compute; discriminate|lia|lia|exact Hposes]|].
  destruct (process_video_length Demo.v1 7 3 5) as (st & Hrun & _ & Hlen & _);
    [vm_compute; discriminate|lia|lia|exact Hposes|].
  exists st. split; [exact Hrun|exact Hlen].
Defined.

Lemma smooth_landmarks_mean_witness :
  let buffer := [flat_map lm_coords (Demo.pose 0); flat_map lm_coords (Demo.pose 1000)] in
  ((1 ≤ length buffer)%nat ∧ Z.of_nat (length buffer) ≤ 5 ∧
   Forall (λ v, length v = 132%nat) buffer) ∧
  smooth_landmarks buffer 5 = Ok (Some (naive_mean buffer 132)).
Proof.
  intros buffer.
  assert (Hall : Forall (λ v, length v = 132%nat) buffer)
    by (repeat constructor).
  split; [split_and!; [simpl; lia|simpl; lia|exact Hall]|].
  apply (proj1 (smooth_landmarks_mean buffer 5)); [simpl; lia|simpl; lia|exact Hall].
Defined.



Lemma missing_detection_policy_witness :
  (frame_count Demo.st2 mod 1 = 0 ∧ (2 ≤ length (data Demo.st2))%nat) ∧
  ∃ pre prev next, data Demo.st2 = pre ++ [prev; next] ∧
    loop_body 7 5 1 "griddy" None Demo.st2
    = (interpolated_frames ← interpolate_missing_frames prev next 1;
       Ok (mkLoopState 3 3 (frame_buffer Demo.st2)
             (data Demo.st2 ++ interpolated_frames) 2 [0; 1; 2])).
Proof.
  split; [split; [reflexivity|simpl; lia]|].
  destruct (proj1 (missing_detection_policy 7 5 1 "griddy" Demo.st2 eq_refl))
    as (pre & prev & next & Hd & Hbody & _); [simpl; lia|].
  exists pre, prev, next. split; [exact Hd|exact Hbody].
Defined.

Lemma first_detection_raw_witness :
  ((∀ x : Q, fdiv x (of_int 1) = x) ∧ 0 < 5 ∧ (33 ≤ length (Demo.pose 0))%nat ∧
   frame_buffer Demo.st0 = [] ∧ frame_count Demo.st0 mod 1 = 0) ∧
  ∃ rec, loop_body 7 5 1 "griddy" (Some (Demo.pose 0)) Demo.st0
         = Ok (mkLoopState 1 1 [flat_map lm_coords (take 33 (Demo.pose 0))] [rec] 0 [0]) ∧
    landmark rec !! landmark_key 32 "visibility" = Some (inject_Z 323).
Proof.
  split; [split_and!; [exact Qdiv_one|lia|vm_compute; lia|reflexivity|reflexivity]|].
  destruct (first_detection_raw 7 5 1 "griddy" (Demo.pose 0) Demo.st0 Qdiv_one)
    as (rec & Hbody & _ & _ & _ & Hlook); [lia|vm_compute; lia|reflexivity|reflexivity|].
  exists rec. split; [exact Hbody|].
  exact (Hlook 32%nat 3%nat "visibility" ltac:(lia) eq_refl).
Defined.


(** * Further properties of the code *)

(** ** Keys and dictionaries *)

Lemma foldM_app {A B : Type} (f : B → A → result B) acc (l1 l2 : list A) :
  foldM f acc (l1 ++ l2) = foldM f acc l1 ≫= λ acc', foldM f acc' l2.
Proof.
  revert acc; induction l1 as [|a l1 IH]; intros acc; [done|]. simpl.
  destruct (f acc a) as [acc'|e]; [|done]. rewrite !bind_Ok. apply IH.
Qed.

(** X1. Two landmark keys are equal only for the same index and the same
    coordinate name, whatever the index is; the loops over 33 indices and 4
    coordinate names make 132 keys without a repetition. *)
Theorem landmark_keys_never_collide :
  (∀ i c j c', landmark_key i c = landmark_key j c' ↔ i = j ∧ c = c') ∧
  length landmark_keys = 132%nat ∧ NoDup landmark_keys.
Proof.
  split; [|apply landmark_keys_distinct].
  intros i c j c'. split; [apply landmark_key_inj|]. by intros [-> ->].
Qed.

Section MoreDictionaries.
Context {F : Type} {PF : PyFloat F}.
Implicit Types (lms : list (Landmark F)) (sm : list F).

(** X2. [create_landmark_dict] keeps the three metadata arguments, and
    entry ['landmark_{idx}_{coord}'] of its result is that coordinate of
    landmark [idx]: one entry per landmark and coordinate name, none for an
    index past the list, however long the list is. *)
Theorem create_landmark_dict_read_back lms (s f : Z) (dn : string) :
  sample_number (create_landmark_dict lms s f dn) = s ∧
  frame_number (create_landmark_dict lms s f dn) = f ∧
  dance_name (create_landmark_dict lms s f dn) = dn ∧
  ∀ idx j c, coords !! j = Some c →
    landmark (create_landmark_dict lms s f dn) !! landmark_key idx c
    = lms !! idx ≫= λ lm, lm_coords lm !! j.
Proof.
  split_and!; [done|done|done|]. intros idx j c Hc. by apply create_landmark_dict_lookup.
Qed.

Lemma getitem_None (d : gmap string F) key :
  d !! key = None → getitem d key = Raise (KeyError key).
Proof. unfold getitem. by intros ->. Qed.

Lemma getidx_None {A : Type} (a : list A) i : a !! i = None → getidx a i = Raise IndexError.
Proof. unfold getidx. by intros ->. Qed.

(** The flattening loop over the indices [a], ..., [a + n - 1] of a
    dictionary made from [lms]. *)
Lemma flatten_landmarks_seq lms (s f : Z) (dn : string) n a acc :
  (a ≤ length lms)%nat →
  foldM (λ flattened_landmarks idx,
      vx ← getitem (landmark (create_landmark_dict lms s f dn)) (landmark_key idx "x");
      vy ← getitem (landmark (create_landmark_dict lms s f dn)) (landmark_key idx "y");
      vz ← getitem (landmark (create_landmark_dict lms s f dn)) (landmark_key idx "z");
      vv ← getitem (landmark (create_landmark_dict lms s f dn))
             (landmark_key idx "visibility");
      Ok (flattened_landmarks ++ [vx; vy; vz; vv])) acc (seq a n)
  = if decide (a + n ≤ length lms)%nat
    then Ok (acc ++ flat_map lm_coords (take n (drop a lms)))
    else Raise (KeyError (landmark_key (length lms) "x")).
Proof.
  revert a acc; induction n as [|n IH]; intros a acc Ha; cbn [foldM seq].
  - rewrite decide_True by lia. simpl. by rewrite app_nil_r.
  - destruct (decide (a < length lms)%nat) as [Hlt|Hge].
    + destruct (lookup_lt_is_Some_2 lms a) as [lm Hlm]; [lia|].
      rewrite (getitem_Some _ (landmark_key a "x") (lm_x lm)), bind_Ok
        by (by rewrite (create_landmark_dict_lookup _ _ _ _ _ 0%nat), Hlm).
      rewrite (getitem_Some _ (landmark_key a "y") (lm_y lm)), bind_Ok
        by (by rewrite (create_landmark_dict_lookup _ _ _ _ _ 1%nat), Hlm).
      rewrite (getitem_Some _ (landmark_key a "z") (lm_z lm)), bind_Ok
        by (by rewrite (create_landmark_dict_lookup _ _ _ _ _ 2%nat), Hlm).
      rewrite (getitem_Some _ (landmark_key a "visibility") (lm_visibility lm)), bind_Ok
        by (by rewrite (create_landmark_dict_lookup _ _ _ _ _ 3%nat), Hlm).
      rewrite bind_Ok, IH by lia.
      destruct (decide (S a + n ≤ length lms)%nat).
      * rewrite decide_True by lia. rewrite (drop_S _ _ _ Hlm). simpl.
        by rewrite <- app_assoc.
      * by rewrite decide_False by lia.
    + assert (a = length lms) as -> by lia.
      rewrite decide_False by lia.
      rewrite (getitem_None _ (landmark_key (length lms) "x")); [done|].
      rewrite (create_landmark_dict_lookup _ _ _ _ _ 0%nat) by done.
      by rewrite lookup_ge_None_2.
Qed.

Lemma flatten_landmarks_create_dec lms (s f : Z) (dn : string) :
  flatten_landmarks (create_landmark_dict lms s f dn)
  = if decide (33 ≤ length lms)%nat
    then Ok (flat_map lm_coords (take 33 lms))
    else Raise (KeyError (landmark_key (length lms) "x")).
Proof.
  unfold flatten_landmarks.
  rewrite (flatten_landmarks_seq lms s f dn 33 0 []) by lia.
  by rewrite drop_0.
Qed.

(** X3. Flattening the dictionary made from a detected pose gives the
    coordinates of its first 33 landmarks in order, [x], [y], [z],
    [visibility] for each; a pose with [n < 33] landmarks makes the loop
    raise [KeyError] on ['landmark_{n}_x']. *)
Theorem flatten_after_create lms (s f : Z) (dn : string) :
  flatten_landmarks (create_landmark_dict lms s f dn)
  = if decide (33 ≤ length lms)%nat
    then Ok (flat_map lm_coords (take 33 lms))
    else Raise (KeyError (landmark_key (length lms) "x")).
Proof. apply flatten_landmarks_create_dec. Qed.

End MoreDictionaries.

Section SmoothedDictionary.
Context {F : Type} {PF : PyFloat F}.
Implicit Types (sm : list F) (d : gmap string F).

(** The loop that writes the smoothed dictionary stops with [IndexError]
    when the vector is too short for one of the indices it reads. *)
Lemma smoothed_fields_seq_short sm n a d0 :
  (a * 4 ≤ length sm)%nat → (length sm < (a + n) * 4)%nat →
  foldM (λ d idx,
      vx ← getidx sm (idx * 4);
      let d := <[landmark_key idx "x" := vx]> d in
      vy ← getidx sm (idx * 4 + 1);
      let d := <[landmark_key idx "y" := vy]> d in
      vz ← getidx sm (idx * 4 + 2);
      let d := <[landmark_key idx "z" := vz]> d in
      vv ← getidx sm (idx * 4 + 3);
      Ok (<[landmark_key idx "visibility" := vv]> d)) d0 (seq a n)
  = Raise IndexError.
Proof.
  revert a d0; induction n as [|n IH]; intros a d0 Ha Hlen; [lia|].
  cbn [foldM seq].
  destruct (sm !! (a * 4)%nat) as [vx|] eqn:Ex;
    [rewrite (getidx_Some _ (a * 4) _ Ex), bind_Ok
    |by rewrite (getidx_None _ (a * 4) Ex)].
  destruct (sm !! (a * 4 + 1)%nat) as [vy|] eqn:Ey;
    [rewrite (getidx_Some _ (a * 4 + 1) _ Ey), bind_Ok
    |by rewrite (getidx_None _ (a * 4 + 1) Ey)].
  destruct (sm !! (a * 4 + 2)%nat) as [vz|] eqn:Ez;
    [rewrite (getidx_Some _ (a * 4 + 2) _ Ez), bind_Ok
    |by rewrite (getidx_None _ (a * 4 + 2) Ez)].
  destruct (sm !! (a * 4 + 3)%nat) as [vv|] eqn:Ev;
    [rewrite (getidx_Some _ (a * 4 + 3) _ Ev), !bind_Ok
    |by rewrite (getidx_None _ (a * 4 + 3) Ev)].
  apply lookup_lt_Some in Ev. apply IH; lia.
Qed.

(** The keys of the smoothed dictionary are landmark keys. *)
Lemma smoothed_fields_keys sm d :
  smoothed_fields sm = Ok d → ∀ key, is_Some (d !! key) → key ∈ landmark_keys.
Proof.
  unfold smoothed_fields.
  enough (G : ∀ (l : list nat) d0,
    (∀ i, i ∈ l → (i < 33)%nat) →
    foldM (λ d idx,
        vx ← getidx sm (idx * 4);
        let d := <[landmark_key idx "x" := vx]> d in
        vy ← getidx sm (idx * 4 + 1);
        let d := <[landmark_key idx "y" := vy]> d in
        vz ← getidx sm (idx * 4 + 2);
        let d := <[landmark_key idx "z" := vz]> d in
        vv ← getidx sm (idx * 4 + 3);
        Ok (<[landmark_key idx "visibility" := vv]> d)) d0 l = Ok d →
    ∀ key, is_Some (d !! key) → is_Some (d0 !! key) ∨ key ∈ landmark_keys).
  { intros Hrun key Hkey.
    destruct (G (seq 0 33) ∅) with (key := key) as [Hin|Hin]; try done.
    - intros i Hi%elem_of_seq. lia.
    - rewrite lookup_empty in Hin. by destruct Hin. }
  induction l as [|idx l IH]; intros d0 Hl Hrun key Hkey.
  - injection Hrun as <-. by left.
  - cbn [foldM] in Hrun. bind_inv Hrun. cbv zeta in E.
    bind_inv E. injection E as <-.
    assert (Hidx : (idx < 33)%nat) by (apply Hl; by left).
    assert (Hl' : ∀ i, i ∈ l → (i < 33)%nat) by (intros i Hi; apply Hl; by right).
    destruct (IH _ Hl' Hrun key Hkey) as [Hin|Hin]; [|by right].
    assert (Hmine : ∀ j c, coords !! j = Some c → landmark_key idx c ∈ landmark_keys).
    { intros j c Hc. apply elem_of_landmark_keys. by exists idx, j, c. }
    repeat (apply lookup_insert_is_Some in Hin as [<-|[_ Hin]];
            [right; first [ apply (Hmine 0%nat _ eq_refl) | apply (Hmine 1%nat _ eq_refl)
                          | apply (Hmine 2%nat _ eq_refl) | apply (Hmine 3%nat _ eq_refl) ]|]).
    by left.
Qed.

(** Flattening a dictionary whose landmark entries are read from [sm]. *)
Lemma flatten_landmarks_vector sm (s f : Z) (dn : string) d :
  (132 ≤ length sm)%nat →
  (∀ idx j c, (idx < 33)%nat → coords !! j = Some c →
     d !! landmark_key idx c = sm !! (idx * 4 + j)%nat) →
  flatten_landmarks (mkFrameDict s f dn d) = Ok (take 132 sm).
Proof.
  intros Hlen Hlook. unfold flatten_landmarks. cbn [landmark].
  enough (G : ∀ n a acc, (a + n ≤ 33)%nat →
    foldM (λ flattened_landmarks idx,
        vx ← getitem d (landmark_key idx "x");
        vy ← getitem d (landmark_key idx "y");
        vz ← getitem d (landmark_key idx "z");
        vv ← getitem d (landmark_key idx "visibility");
        Ok (flattened_landmarks ++ [vx; vy; vz; vv])) acc (seq a n)
    = Ok (acc ++ take (n * 4) (drop (a * 4) sm))).
  { rewrite (G 33%nat 0%nat []) by lia. by rewrite drop_0. }
  induction n as [|n IH]; intros a acc Ha; cbn [foldM seq].
  - simpl. by rewrite app_nil_r.
  - destruct (lookup_lt_is_Some_2 sm (a * 4)) as [vx Hx]; [lia|].
    destruct (lookup_lt_is_Some_2 sm (a * 4 + 1)) as [vy Hy]; [lia|].
    destruct (lookup_lt_is_Some_2 sm (a * 4 + 2)) as [vz Hz]; [lia|].
    destruct (lookup_lt_is_Some_2 sm (a * 4 + 3)) as [vv Hv]; [lia|].
    rewrite (getitem_Some _ (landmark_key a "x") vx), bind_Ok
      by (rewrite (Hlook a 0%nat) by (done || lia); by rewrite Nat.add_0_r).
    rewrite (getitem_Some _ (landmark_key a "y") vy), bind_Ok
      by (by rewrite (Hlook a 1%nat) by (done || lia)).
    rewrite (getitem_Some _ (landmark_key a "z") vz), bind_Ok
      by (by rewrite (Hlook a 2%nat) by (done || lia)).
    rewrite (getitem_Some _ (landmark_key a "visibility") vv), bind_Ok
      by (by rewrite (Hlook a 3%nat) by (done || lia)).
    rewrite bind_Ok, IH by lia. f_equal. rewrite <- app_assoc. f_equal.
    rewrite (drop_S _ _ _ Hx).
    replace (S (a * 4)) with (a * 4 + 1)%nat by lia. rewrite (drop_S _ _ _ Hy).
    replace (S (a * 4 + 1)) with (a * 4 + 2)%nat by lia. rewrite (drop_S _ _ _ Hz).
    replace (S (a * 4 + 2)) with (a * 4 + 3)%nat by lia. rewrite (drop_S _ _ _ Hv).
    replace (S (a * 4 + 3)) with (S a * 4)%nat by lia. done.
Qed.

(** X4. Writing a vector of at least 132 numbers into a smoothed
    dictionary gives exactly the 132 landmark keys, and flattening that
    dictionary gives the first 132 numbers back; a shorter vector makes the
    writing loop raise [IndexError]. *)
Theorem smoothed_fields_round_trip sm (s f : Z) (dn : string) :
  if decide (132 ≤ length sm)%nat
  then ∃ d, smoothed_fields sm = Ok d ∧
         (∀ key, is_Some (d !! key) ↔ key ∈ landmark_keys) ∧
         flatten_landmarks (mkFrameDict s f dn d) = Ok (take 132 sm)
  else smoothed_fields sm = Raise IndexError.
Proof.
  case_decide as Hlen.
  - destruct (smoothed_fields_Ok sm Hlen) as (d & Hd & Hlook).
    exists d. split_and!; [done| |by apply flatten_landmarks_vector].
    intros key. split; [by apply (smoothed_fields_keys sm)|].
    intros (idx & j & c & Hidx & Hc & ->)%elem_of_landmark_keys.
    rewrite (Hlook _ _ _ Hidx Hc). apply lookup_lt_is_Some_2.
    apply coords_lookup_lt in Hc. lia.
  - unfold smoothed_fields. apply smoothed_fields_seq_short; lia.
Qed.

End SmoothedDictionary.

(** ** The filter at the edge of its window *)

(** X6. A window of zero does not mean an empty average: [a[-0:]] is the
    whole array, so the filter averages every vector of the buffer. *)
Theorem smooth_landmarks_window_zero {F : Type} {PF : PyFloat F}
    (buffer : list (list F)) (n : nat) :
  buffer ≠ [] → Forall (λ v, length v = n) buffer →
  smooth_landmarks buffer 0 = Ok (Some (naive_mean buffer n)).
Proof.
  intros Hne Hall. unfold smooth_landmarks.
  destruct buffer as [|r rs]; [done|].
  rewrite (np_array_Ok _ n), bind_Ok by done.
  change (slice_from (- 0) (r :: rs)) with (r :: rs).
  replace (length (default [] (head (r :: rs)))) with n
    by (apply Forall_cons in Hall as [<- _]; done).
  by rewrite np_mean_axis0_naive.
Qed.

(** ** The labeller *)

Lemma lower_ascii_idemp c : lower_ascii (lower_ascii c) = lower_ascii c.
Proof. destruct c as [[] [] [] [] [] [] [] []]; reflexivity. Qed.

Lemma lower_idemp s : lower (lower s) = lower s.
Proof. induction s as [|c s IH]; [done|]. simpl. by rewrite lower_ascii_idemp, IH. Qed.

(** Either no term occurs and the answer is the sentinel, or the answer is
    a term that occurs, in lower case. *)
Lemma extract_dance_name_cases filename valid_dances :
  (extract_dance_name filename valid_dances = "unknown" ∧
   ∀ dance, dance ∈ valid_dances → contains (lower dance) (lower filename) = false) ∨
  (∃ dance, dance ∈ valid_dances ∧
     extract_dance_name filename valid_dances = lower dance ∧
     contains (lower dance) (lower filename) = true).
Proof.
  induction valid_dances as [|d rest IH]; simpl.
  - left. split; [done|]. by intros dance ?%elem_of_nil.
  - destruct (contains (lower d) (lower filename)) eqn:E.
    + right. exists d. split_and!; [by left|done|done].
    + destruct IH as [[Hu Hno]|(dance & Hin & He & Hc)].
      * left. split; [done|]. intros dance [->|?]%elem_of_cons; [done|by apply Hno].
      * right. exists dance. split_and!; [by right|done|done].
Qed.

(** X8. On the fixed vocabulary the labeller answers ['unknown'] exactly
    when no term of the vocabulary occurs in the lowercased file name, and
    otherwise it answers a term of the vocabulary that occurs in it. *)
Theorem extract_dance_name_vocabulary (filename : string) :
  (extract_dance_name filename VALID_DANCE_NAMES = "unknown" ↔
   ∀ dance, dance ∈ VALID_DANCE_NAMES →
     contains (lower dance) (lower filename) = false) ∧
  (extract_dance_name filename VALID_DANCE_NAMES = "unknown" ∨
   (extract_dance_name filename VALID_DANCE_NAMES ∈ VALID_DANCE_NAMES ∧
    contains (extract_dance_name filename VALID_DANCE_NAMES) (lower filename) = true)).
Proof.
  assert (Hlow : ∀ dance, dance ∈ VALID_DANCE_NAMES →
            lower dance = dance ∧ dance ≠ "unknown").
  { intros dance Hd. unfold VALID_DANCE_NAMES in Hd.
    repeat (apply elem_of_cons in Hd as [->|Hd]; [by split|]).
    by apply elem_of_nil in Hd. }
  destruct (extract_dance_name_cases filename VALID_DANCE_NAMES)
    as [[Hu Hno]|(dance & Hin & He & Hc)].
  - split; [by split|by left].
  - destruct (Hlow dance Hin) as [Hl Hne]. rewrite Hl in He, Hc. split.
    + split; [intros Hu; congruence|].
      intros Hno. specialize (Hno dance Hin). rewrite Hl in Hno. congruence.
    + right. by rewrite He.
Qed.

(** X9. On ASCII text matching ignores case: the answer does not change
    when the file name, or every term of the list, is put in lower case
    first. *)
Theorem extract_dance_name_ignores_case (filename : string) (valid_dances : list string) :
  is_ascii filename → Forall is_ascii valid_dances →
  extract_dance_name (lower filename) valid_dances
  = extract_dance_name filename valid_dances ∧
  extract_dance_name filename (lower <$> valid_dances)
  = extract_dance_name filename valid_dances.
Proof.
  intros _ _.
  split; induction valid_dances as [|d rest IH]; try done.
  - cbn [extract_dance_name]. by rewrite lower_idemp, IH.
  - rewrite fmap_cons. cbn [extract_dance_name]. by rewrite lower_idemp, IH.
Qed.

(** ** Paths *)

Lemma endswith_app s suffix : endswith s suffix = true ↔ ∃ pre, s = pre +:+ suffix.
Proof.
  induction s as [|c s IH]; cbn [endswith]; rewrite orb_true_iff, String.eqb_eq.
  - split.
    + intros [->|?]; [by exists ""|done].
    + intros [pre E]. left. destruct pre; [done|discriminate E].
  - rewrite IH. split.
    + intros [E|[pre E]]; [by exists ""|]. exists (String c pre). by rewrite E.
    + intros [pre E]. destruct pre as [|c' pre]; [by left|].
      right. exists pre. by injection E.
Qed.

Lemma string_app_assoc (a b c : string) : (a +:+ b) +:+ c = a +:+ b +:+ c.
Proof.
  induction a as [|x a IH]; [done|].
  change (String x (a +:+ b) +:+ c = String x (a +:+ b +:+ c)).
  change (String x ((a +:+ b) +:+ c) = String x (a +:+ b +:+ c)). by rewrite IH.
Qed.

Lemma basename_after_slash a name :
  contains "/" name = false → basename (a +:+ "/" +:+ name) = name.
Proof.
  intros Hname. induction a as [|c a IH].
  - change ("" +:+ "/" +:+ name) with (String "/" name). cbn [basename].
    by rewrite Hname.
  - change (String c a +:+ "/" +:+ name) with (String c (a +:+ "/" +:+ name)).
    cbn [basename]. rewrite (proj2 (contains_app "/" (a +:+ "/" +:+ name))); [done|].
    by exists a, name.
Qed.

Lemma basename_no_slash name : contains "/" name = false → basename name = name.
Proof.
  intros Hname. destruct name as [|c name]; [done|]. cbn [basename].
  cbn [contains] in Hname. apply orb_false_iff in Hname as [Hc Hrest].
  rewrite Hrest. destruct (Ascii.eqb_spec c "/") as [->|Hne]; [|done].
  rewrite (proj2 (prefix_app "/" (String "/" name))) in Hc; [done|]. by exists name.
Qed.

Lemma basename_join (directory name : string) :
  contains "/" name = false → basename (path_join directory name) = name.
Proof.
  intros Hname. unfold path_join.
  destruct (String.prefix "/" name) eqn:Hp.
  { apply prefix_app in Hp as [post ->].
    rewrite (proj2 (contains_app "/" ("/" +:+ post))) in Hname; [done|]. by exists "", post. }
  destruct (String.eqb_spec directory "") as [->|Hd]; [by apply basename_no_slash|].
  cbn [orb]. destruct (endswith directory "/") eqn:He.
  - apply endswith_app in He as [pre ->].
    rewrite string_app_assoc. by apply basename_after_slash.
  - by apply basename_after_slash.
Qed.

(** X10. For a name without ['/'], as [os.listdir] gives them, the base
    name of the joined path is the name again, whatever the directory is: the
    dance is resolved from the file name and never from the directory. *)
Theorem basename_path_join (directory name : string) :
  contains "/" name = false →
  basename (path_join directory name) = name ∧
  extract_dance_name (basename (path_join directory name)) VALID_DANCE_NAMES
  = extract_dance_name name VALID_DANCE_NAMES.
Proof. intros Hname. by rewrite (basename_join directory name Hname). Qed.

(** ** The interpolator outside its contract *)

Section InterpolatorErrors.
Context {F : Type} {PF : PyFloat F}.
Implicit Types (prev next : FrameDict F).

(** The inner loop stops at the first key that one of the frames lacks. *)
Lemma interpolate_keys_missing (ratio : F) (dp dn d0 : gmap string F)
    (ks : list string) (key0 : string) :
  key0 ∈ ks → dp !! key0 = None ∨ dn !! key0 = None →
  ∃ before k after,
    ks = before ++ k :: after ∧
    Forall (λ k', is_Some (dp !! k') ∧ is_Some (dn !! k')) before ∧
    (dp !! k = None ∨ dn !! k = None) ∧
    foldM (λ d key,
        p ← getitem dp key;
        n ← getitem dn key;
        Ok (<[key := fadd (fmul (fsub (of_int 1) ratio) p) (fmul ratio n)]> d))
      d0 ks = Raise (KeyError k).
Proof.
  revert d0; induction ks as [|k0 ks IH]; intros d0 Hin Hmiss; [by apply elem_of_nil in Hin|].
  destruct (dp !! k0) as [p|] eqn:Hp; [destruct (dn !! k0) as [n|] eqn:Hn|].
  - assert (Hin' : key0 ∈ ks).
    { apply elem_of_cons in Hin as [->|?]; [|done]. destruct Hmiss; congruence. }
    destruct (IH (<[k0 := fadd (fmul (fsub (of_int 1) ratio) p) (fmul ratio n)]> d0) Hin' Hmiss)
      as (before & k & after & -> & Hbefore & Hk & Hrun).
    exists (k0 :: before), k, after. split_and!; [done| |done|].
    + apply Forall_cons. rewrite Hp, Hn. by split.
    + cbn [foldM app].
      by rewrite (getitem_Some _ _ _ Hp), bind_Ok, (getitem_Some _ _ _ Hn), !bind_Ok.
  - exists [], k0, ks. split_and!; [done|by constructor|by right|].
    cbn [foldM]. by rewrite (getitem_Some _ _ _ Hp), bind_Ok, (getitem_None _ _ Hn).
  - exists [], k0, ks. split_and!; [done|by constructor|by left|].
    cbn [foldM]. by rewrite (getitem_None _ _ Hp).
Qed.

(** X11. Outside its contract the interpolator behaves as follows.  For
    [num_missing ≤ 0] it returns the empty list, whatever the frames hold.
    For [num_missing ≥ 1] and a landmark key that one of the frames lacks, it
    raises [KeyError] on the first key, in the order of the loops, that
    [prev_frame] or [next_frame] lacks. *)
Theorem interpolate_missing_frames_errors prev next (num_missing : Z) :
  (num_missing ≤ 0 → interpolate_missing_frames prev next num_missing = Ok []) ∧
  (1 ≤ num_missing →
   ∀ key, key ∈ landmark_keys →
     landmark prev !! key = None ∨ landmark next !! key = None →
     ∃ before k after,
       landmark_keys = before ++ k :: after ∧
       Forall (λ k', is_Some (landmark prev !! k') ∧ is_Some (landmark next !! k')) before ∧
       (landmark prev !! k = None ∨ landmark next !! k = None) ∧
       interpolate_missing_frames prev next num_missing = Raise (KeyError k)).
Proof.
  split.
  - intros Hn. unfold interpolate_missing_frames. by rewrite seqZ_nil.
  - intros Hn key Hkey Hmiss. unfold interpolate_missing_frames.
    rewrite seqZ_cons by lia. cbn [foldM].
    destruct (interpolate_keys_missing (fdiv (of_int 1) (of_int (num_missing + 1)))
                (landmark prev) (landmark next) ∅ landmark_keys key Hkey Hmiss)
      as (before & k & after & Hks & Hbefore & Hk & Hrun).
    exists before, k, after. split_and!; [done|done|done|].
    cbv zeta. by rewrite Hrun.
Qed.

End InterpolatorErrors.

(** ** What a pass of the loop can do *)

Section Passes.
Context {F : Type} {PF : PyFloat F}.
Variables (s K w interval : Z) (dn : string).
Implicit Types (st : LoopState F) (fr : FrameDict F) (lms : list (Landmark F)).

(** When the writing loop returns, its dictionary has exactly the
    landmark keys and the vector has at least 132 numbers. *)
Lemma smoothed_fields_inv (sm : list F) (d : gmap string F) :
  smoothed_fields sm = Ok d →
  (132 ≤ length sm)%nat ∧
  (∀ key, is_Some (d !! key) ↔ key ∈ landmark_keys) ∧
  ∀ idx j c, (idx < 33)%nat → coords !! j = Some c →
    d !! landmark_key idx c = sm !! (idx * 4 + j)%nat.
Proof.
  intros Hd. assert (Hlen : (132 ≤ length sm)%nat).
  { destruct (decide (132 ≤ length sm)%nat) as [|Hshort]; [done|].
    unfold smoothed_fields in Hd.
    rewrite (smoothed_fields_seq_short sm 33 0 ∅) in Hd by lia. done. }
  destruct (smoothed_fields_Ok sm Hlen) as (d' & Hd' & Hlook).
  rewrite Hd in Hd'. injection Hd' as <-. split_and!; [done| |done].
  intros key. split; [by apply (smoothed_fields_keys sm)|].
  intros (idx & j & c & Hidx & Hc & ->)%elem_of_landmark_keys.
  rewrite (Hlook _ _ _ Hidx Hc). apply lookup_lt_is_Some_2.
  apply coords_lookup_lt in Hc. lia.
Qed.

(** When the interpolator returns for a gap of one, both frames carry the
    landmark keys and the result is the one frame that the contract asks. *)
Lemma interpolate_one_inv (prev next : FrameDict F) fs :
  interpolate_missing_frames prev next 1 = Ok fs →
  has_landmark_keys prev ∧ has_landmark_keys next ∧
  ∃ new, fs = [new] ∧ interpolated_at prev next 1 1 new.
Proof.
  intros Hrun.
  assert (Hkeys : ∀ key, key ∈ landmark_keys →
            is_Some (landmark prev !! key) ∧ is_Some (landmark next !! key)).
  { intros key Hkey.
    destruct (landmark prev !! key) as [p|] eqn:Hp;
      [destruct (landmark next !! key) as [n|] eqn:Hn; [by split|]|].
    - destruct (interpolate_keys_missing (fdiv (of_int 1) (of_int (1 + 1)))
                  (landmark prev) (landmark next) ∅ landmark_keys key Hkey (or_intror Hn))
        as (? & k & ? & _ & _ & _ & Hraise).
      unfold interpolate_missing_frames in Hrun. change (seqZ 1 1) with [1] in Hrun.
      cbn [foldM] in Hrun. cbv zeta in Hrun. by rewrite Hraise in Hrun.
    - destruct (interpolate_keys_missing (fdiv (of_int 1) (of_int (1 + 1)))
                  (landmark prev) (landmark next) ∅ landmark_keys key Hkey (or_introl Hp))
        as (? & k & ? & _ & _ & _ & Hraise).
      unfold interpolate_missing_frames in Hrun. change (seqZ 1 1) with [1] in Hrun.
      cbn [foldM] in Hrun. cbv zeta in Hrun. by rewrite Hraise in Hrun. }
  assert (Hp : has_landmark_keys prev) by (intros key Hkey; by apply Hkeys).
  assert (Hn : has_landmark_keys next) by (intros key Hkey; by apply Hkeys).
  destruct (interpolate_one prev next Hp Hn) as (new & Hnew & Hat & _).
  rewrite Hrun in Hnew. injection Hnew as ->. split_and!; [done|done|]. by exists new.
Qed.

Lemma loop_body_cases frame st st' :
  loop_body s w interval dn frame st = Ok st' →
  frame_count st' = frame_count st + 1 ∧
  read_calls st' = read_calls st ∧
  submitted st'
  = (if frame_count st mod interval =? 0 then submitted st ++ [frame_count st]
     else submitted st) ∧
  pass_kind s w interval dn frame st st'.
Proof.
  unfold loop_body. intros Hrun.
  destruct (Z.eqb_spec (frame_count st mod interval) 0) as [Hsel|Hsel].
  2:{ rewrite bind_Ok in Hrun. injection Hrun as <-.
      split_and!; try done. apply pass_idle; auto. }
  destruct frame as [lms|].
  - unfold on_detection in Hrun.
    cbn [frame_count sampled_frames frame_buffer data read_calls submitted] in Hrun.
    rewrite flatten_landmarks_create_dec in Hrun.
    case_decide as Hlms; [|done]. rewrite bind_Ok in Hrun.
    destruct (smooth_landmarks _ w) as [[sm|]|] eqn:Esm; [| |done]; rewrite bind_Ok in Hrun.
    + destruct (smoothed_fields sm) as [d|] eqn:Ed; [|done].
      rewrite !bind_Ok in Hrun. injection Hrun as <-.
      cbn [frame_count sampled_frames frame_buffer data read_calls submitted].
      split_and!; try done. eapply pass_detected; try done.
      right. by exists sm, d.
    + rewrite !bind_Ok in Hrun. injection Hrun as <-.
      cbn [frame_count sampled_frames frame_buffer data read_calls submitted].
      split_and!; try done. eapply pass_detected; try done.
      left. split; [|done]. by apply smooth_landmarks_None in Esm.
  - unfold on_missing in Hrun.
    cbn [frame_count sampled_frames frame_buffer data read_calls submitted] in Hrun.
    destruct (2 <=? length (data st))%nat eqn:Hlen.
    + apply Nat.leb_le in Hlen.
      destruct (list_last_two _ Hlen) as (pre & prev & next & Hd).
      assert (Hprev : getidx_neg (data st) 2 = Ok prev).
      { unfold getidx_neg. rewrite (proj2 (Nat.leb_le _ _)) by lia.
        apply getidx_Some. rewrite Hd, length_app, lookup_app_r by (simpl; lia).
        by replace (_ - _)%nat with 0%nat by (simpl; lia). }
      assert (Hnext : getidx_neg (data st) 1 = Ok next).
      { unfold getidx_neg. rewrite (proj2 (Nat.leb_le _ _)) by lia.
        apply getidx_Some. rewrite Hd, length_app, lookup_app_r by (simpl; lia).
        by replace (_ - _)%nat with 1%nat by (simpl; lia). }
      rewrite Hprev, bind_Ok, Hnext, bind_Ok in Hrun.
      destruct (interpolate_missing_frames prev next 1) as [fs|] eqn:Ei; [|done].
      rewrite !bind_Ok in Hrun. injection Hrun as <-.
      destruct (interpolate_one_inv prev next _ Ei) as (Hp & Hn & new & -> & Hat).
      cbn [frame_count sampled_frames frame_buffer data read_calls submitted].
      split_and!; try done. by eapply pass_interpolated.
    + apply Nat.leb_gt in Hlen. rewrite bind_Ok in Hrun. injection Hrun as <-.
      split_and!; try done. apply pass_idle; auto.
Qed.

End Passes.

(** ** Invariants of every run that returns *)

Section Runs.
Context {F : Type} {PF : PyFloat F}.
Implicit Types (v : Video F) (st : LoopState F) (fr : FrameDict F).

(** Induction over the passes of the loop: a property of the state that
    counting a read keeps, and that every pass made below the target keeps,
    holds when the loop returns.  The pass knows the position of its frame. *)
Lemma sampling_loop_invariant (s K w interval : Z) (dn : string)
    (P : LoopState F → Prop) opened frames st0 st' :
  (∀ st, P st →
     P (mkLoopState (frame_count st) (sampled_frames st) (frame_buffer st) (data st)
          (S (read_calls st)) (submitted st))) →
  (∀ (k : nat) frame st st1,
     frames !! k = Some frame → frame_count st = frame_count st0 + Z.of_nat k →
     P st → sampled_frames st < K →
     loop_body s w interval dn frame st = Ok st1 → P st1) →
  sampling_loop s K w interval dn opened frames st0 = Ok st' →
  P st0 → P st'.
Proof.
  intros Htick. revert st0; induction frames as [|frame frames IH];
    intros st0 Hpass Hrun HP; cbn [sampling_loop] in Hrun.
  - destruct (opened && _); injection Hrun as <-; auto.
  - destruct (opened && (sampled_frames st0 <? K)) eqn:Hguard; [|by injection Hrun as <-].
    apply andb_true_iff in Hguard as [_ Hlt%Z.ltb_lt].
    destruct (loop_body s w interval dn frame _) as [st1|] eqn:Hbody; [|done].
    rewrite bind_Ok in Hrun.
    destruct (loop_body_cases s w interval dn _ _ _ Hbody) as (Hfc & _).
    cbn [frame_count] in Hfc.
    apply (IH st1); [|done|].
    + intros k fr st st2 Hk Hpos. apply (Hpass (S k)); [done|]. rewrite Hpos, Hfc. lia.
    + refine (Hpass 0%nat frame _ st1 _ _ (Htick _ HP) _ Hbody);
        [done|simpl; lia|done].
Qed.

(** The same for the whole function: a property of the state that holds
    before the first frame holds when [process_video] returns. *)
Lemma process_video_run_invariant v (s K w : Z) (P : LoopState F → Prop) st :
  P (mkLoopState 0 0 [] [] 0 []) →
  (∀ st, P st →
     P (mkLoopState (frame_count st) (sampled_frames st) (frame_buffer st) (data st)
          (S (read_calls st)) (submitted st))) →
  (∀ (k : nat) frame st st1,
     cap_frames v !! k = Some frame → frame_count st = Z.of_nat k →
     P st → sampled_frames st < K →
     loop_body s w (Z.max 1 (cap_frame_count v / K))
       (extract_dance_name (basename (video_path v)) VALID_DANCE_NAMES) frame st = Ok st1 →
     P st1) →
  process_video_run v s K w = Ok st → P st.
Proof.
  intros H0 Htick Hpass Hrun. unfold process_video_run in Hrun.
  destruct (cap_frame_count v =? 0); [by injection Hrun as <-|].
  unfold floordiv in Hrun. destruct (K =? 0); [done|]. rewrite bind_Ok in Hrun.
  destruct (String.eqb _ "unknown"); [by injection Hrun as <-|].
  unfold deque_new in Hrun. destruct (w <? 0); [done|]. rewrite bind_Ok in Hrun.
  eapply (sampling_loop_invariant s K w _ _ P); [done| |exact Hrun|done].
  intros k frame st0 st1 Hk Hpos. apply (Hpass k); [done|]. by rewrite Hpos.
Qed.

(** X13. The order of the checks in [process_video], for a non-zero
    reported frame count: a target of 0 raises [ZeroDivisionError] whatever
    the file is called; an unrecognized name returns the empty list even with
    a negative window; a recognized name with a negative window raises
    [ValueError]. *)
Theorem process_video_argument_errors v (s K w : Z) :
  cap_frame_count v ≠ 0 →
  (K = 0 → process_video v s K w = Raise ZeroDivisionError) ∧
  (K ≠ 0 →
   extract_dance_name (basename (video_path v)) VALID_DANCE_NAMES = "unknown" →
   process_video v s K w = Ok []) ∧
  (K ≠ 0 →
   extract_dance_name (basename (video_path v)) VALID_DANCE_NAMES ≠ "unknown" →
   w < 0 → process_video v s K w = Raise ValueError).
Proof.
  intros Htotal. unfold process_video, process_video_run, floordiv, deque_new.
  rewrite (proj2 (Z.eqb_neq _ 0) Htotal). split_and!.
  - by intros ->.
  - intros HK Hu. by rewrite (proj2 (Z.eqb_neq K 0) HK), Hu.
  - intros HK Hk Hw.
    rewrite (proj2 (Z.eqb_neq K 0) HK), bind_Ok, (proj2 (String.eqb_neq _ _) Hk).
    by rewrite (proj2 (Z.ltb_lt w 0) Hw).
Qed.

(** X14. Every record that [process_video] returns has exactly the 132
    landmark keys, no more and no fewer, whether it was written after a
    detection or by the interpolator. *)
Theorem process_video_records_keys v (s K w : Z) records :
  process_video v s K w = Ok records →
  Forall (λ fr, ∀ key, is_Some (landmark fr !! key) ↔ key ∈ landmark_keys) records.
Proof.
  intros (st & Hrun & ->)%process_video_data_inv.
  apply (process_video_run_invariant v s K w
    (λ st, Forall (λ fr, ∀ key, is_Some (landmark fr !! key) ↔ key ∈ landmark_keys)
             (data st)) st); [by constructor|done| |done].
  intros k frame st0 st1 _ _ HP _ Hbody.
  destruct (loop_body_cases _ _ _ _ _ _ _ Hbody) as (_ & _ & _ & Hkind).
  destruct Hkind as [_ -> _ _|lms raw _ _ _ _ _ _ [[_ ->]|(sm & d & _ & Hd & ->)]
                    |pre prev next new _ _ _ Hp Hn Hat -> _ _]; try done.
  - apply Forall_app; split; [done|]. apply Forall_singleton. cbn [landmark].
    by apply smoothed_fields_inv in Hd as (_ & Hdom & _).
  - apply Forall_app; split; [done|]. apply Forall_singleton.
    intros key. destruct Hat as (_ & _ & _ & Hlook). rewrite Hlook. case_decide as Hkey.
    + destruct (Hp key Hkey) as [p ->], (Hn key Hkey) as [n ->]. split; [done|by eexists].
    + split; [by intros [? ?]|done].
Qed.

(** X15. Every record that [process_video] returns has a [frame_number]
    between 1 and [frames_per_sample], and not above the number of frames
    counted when the function returns. *)
Theorem process_video_frame_number_range v (s K w : Z) st :
  process_video_run v s K w = Ok st →
  0 ≤ sampled_frames st ∧
  Forall (λ fr, 1 ≤ frame_number fr ≤ Z.min (sampled_frames st) K) (data st).
Proof.
  apply (process_video_run_invariant v s K w
    (λ st, 0 ≤ sampled_frames st ∧
       Forall (λ fr, 1 ≤ frame_number fr ≤ Z.min (sampled_frames st) K) (data st)));
    [by split; [|constructor]|done|].
  intros k frame st0 st1 _ _ [H0 HP] Hlt Hbody.
  destruct (loop_body_cases _ _ _ _ _ _ _ Hbody) as (_ & _ & _ & Hkind).
  assert (Hold : sampled_frames st0 ≤ sampled_frames st1 →
            Forall (λ fr, 1 ≤ frame_number fr ≤ Z.min (sampled_frames st1) K) (data st0)).
  { intros Hle. eapply Forall_impl; [exact HP|]. intros fr ?. simpl in *. lia. }
  destruct Hkind as [_ -> Hs _|lms raw _ _ _ _ _ Hs [[_ ->]|(sm & d & _ & _ & ->)]
                    |pre prev next new _ _ Hd _ _ Hat -> Hs _].
  - split; [lia|]. apply Hold. lia.
  - split; [lia|]. apply Hold. lia.
  - split; [lia|]. apply Forall_app; split; [apply Hold; lia|].
    apply Forall_singleton. cbn [frame_number]. lia.
  - split; [lia|]. apply Forall_app; split; [apply Hold; lia|]. apply Forall_singleton.
    destruct Hat as (_ & -> & _).
    assert (Hprev : 1 ≤ frame_number prev ≤ Z.min (sampled_frames st0) K).
    { rewrite Hd in HP. apply Forall_app in HP as [_ HP].
      by apply Forall_cons in HP as [? _]. }
    lia.
Qed.

(** X16. With a smoothing window of 0 the buffer never holds a vector, the
    filter gives no value and no record is ever appended: on a video whose
    poses are complete the function returns the empty list, although every
    detection is counted. *)
Theorem process_video_window_zero v (s K : Z) :
  K ≠ 0 → poses_complete (cap_frames v) → process_video v s K 0 = Ok [].
Proof.
  intros HK Hposes.
  destruct (process_video_run_Ok v s K 0 HK ltac:(done) Hposes) as (st & Hrun & _).
  rewrite (process_video_data _ _ _ _ _ Hrun). f_equal.
  enough (data st = [] ∧ frame_buffer st = []) as [? _] by done.
  apply (process_video_run_invariant v s K 0
    (λ st, data st = [] ∧ frame_buffer st = []) st); [done|done| |done].
  intros k frame st0 st1 _ _ [HP Hbuf] _ Hbody.
  destruct (loop_body_cases _ _ _ _ _ _ _ Hbody) as (_ & _ & _ & Hkind).
  destruct Hkind as [_ -> _ ->|lms raw _ _ _ _ Hb _ Hdata
                    |pre prev next new _ _ Hd _ _ _ _ _ _]; [done| |].
  - rewrite Hbuf in Hb. change (deque_append 0 [] raw) with (@nil (list F)) in Hb.
    destruct Hdata as [[_ ->]|(sm & d & Hsm & _)]; [done|].
    rewrite Hb in Hsm. done.
  - rewrite HP in Hd. by destruct pre.
Qed.

(** X17. When the detector finds a pose on no frame, nothing is counted
    and nothing is interpolated: the function returns the empty list, after
    decoding every frame of an open capture on a recognized file. *)
Theorem process_video_no_pose v (s K w : Z) :
  K ≠ 0 → 0 ≤ w → Forall (λ frame, frame = None) (cap_frames v) →
  ∃ st, process_video_run v s K w = Ok st ∧
    process_video v s K w = Ok [] ∧
    sampled_frames st = 0 ∧ data st = [] ∧
    (0 < K → cap_frame_count v ≠ 0 → cap_isOpened v = true →
     extract_dance_name (basename (video_path v)) VALID_DANCE_NAMES ≠ "unknown" →
     frame_count st = Z.of_nat (length (cap_frames v))).
Proof.
  intros HK Hw Hnone.
  assert (Hposes : poses_complete (cap_frames v)).
  { eapply Forall_impl; [exact Hnone|]. by intros frame ->. }
  destruct (process_video_run_Ok v s K w HK Hw Hposes) as (st & Hrun & _ & _ & _ & Hall).
  assert (Hst : data st = [] ∧ sampled_frames st = 0).
  { apply (process_video_run_invariant v s K w
      (λ st, data st = [] ∧ sampled_frames st = 0) st); [done|done| |done].
    intros k frame st0 st1 Hk _ [HP Hs0] _ Hbody.
    apply list_elem_of_lookup_2 in Hk.
    rewrite (proj1 (Forall_forall _ _) Hnone frame Hk) in Hbody.
    destruct (loop_body_cases _ _ _ _ _ _ _ Hbody) as (_ & _ & _ & Hkind).
    destruct Hkind as [_ -> -> _|lms raw Hf _ _ _ _ _ _
                      |pre prev next new _ _ Hd _ _ _ _ _ _]; [done|done|].
    rewrite HP in Hd. by destruct pre. }
  destruct Hst as [Hdata Hs0]. exists st. split_and!; try done.
  - by rewrite (process_video_data _ _ _ _ _ Hrun), Hdata.
  - intros HK0 Htotal Hop Hknown. apply Hall; try done. lia.
Qed.

(** X18. A run that returns has submitted no pose with fewer than 33
    landmarks: such a pose on a submitted frame makes the flattening loop
    raise [KeyError], and the exception leaves [process_video]. *)
Theorem process_video_submitted_complete v (s K w : Z) st :
  process_video_run v s K w = Ok st →
  ∀ (k : nat) lms,
    Z.of_nat k ∈ submitted st → cap_frames v !! k = Some (Some lms) →
    (33 ≤ length lms)%nat.
Proof.
  apply (process_video_run_invariant v s K w
    (λ st, ∀ (k : nat) lms,
       Z.of_nat k ∈ submitted st → cap_frames v !! k = Some (Some lms) →
       (33 ≤ length lms)%nat)); [by intros k lms ?%elem_of_nil|done|].
  intros k frame st0 st1 Hk Hpos HP _ Hbody k' lms Hin Hk'.
  destruct (loop_body_cases _ _ _ _ _ _ _ Hbody) as (_ & _ & Hsub & Hkind).
  rewrite Hsub in Hin.
  destruct (Z.eqb_spec (frame_count st0 mod Z.max 1 (cap_frame_count v / K)) 0)
    as [Hsel|Hsel]; [|by eapply HP].
  apply elem_of_app in Hin as [Hin|Hin%list_elem_of_singleton]; [by eapply HP|].
  assert (k' = k) as -> by lia. rewrite Hk in Hk'. injection Hk' as ->.
  destruct Hkind as [[Hns|[? _]] _ _ _|lms' raw Hf _ Hlen _ _ _ _
                    |pre prev next new ? _ _ _ _ _ _ _ _]; try done.
  by injection Hf as <-.
Qed.

End Runs.

(** ** Which frames are submitted *)

Section Sampling.
Context {F : Type} {PF : PyFloat F}.
Implicit Types (v : Video F) (st : LoopState F).

(** The positions among the first [n] whose remainder modulo the interval
    is 0, in increasing order. *)
Lemma selected_positions_S (interval fc : Z) (n : nat) :
  List.filter (λ p, p mod interval =? 0) (seqZ fc (Z.of_nat (S n)))
  = (if fc mod interval =? 0 then [fc] else [])
    ++ List.filter (λ p, p mod interval =? 0) (seqZ (fc + 1) (Z.of_nat n)).
Proof.
  rewrite seqZ_cons by lia. cbn [List.filter].
  replace (Z.pred (Z.of_nat (S n))) with (Z.of_nat n) by lia.
  replace (Z.succ fc) with (fc + 1) by lia.
  by destruct (fc mod interval =? 0).
Qed.

(** The loop, pass by pass.  Every call of [cap.read()] that decodes a
    frame is followed by one pass, which advances [frame_count] by one and
    submits the frame exactly when its position is a multiple of the
    interval; the loop ends below the target only after a read has failed. *)
Lemma sampling_loop_reads (s K w interval : Z) (dn : string) opened frames st st' :
  sampling_loop s K w interval dn opened frames st = Ok st' →
  (read_calls st ≤ read_calls st')%nat ∧
  frame_count st'
  = frame_count st + Z.of_nat (Nat.min (read_calls st' - read_calls st) (length frames)) ∧
  submitted st'
  = submitted st
    ++ List.filter (λ p, p mod interval =? 0)
         (seqZ (frame_count st)
            (Z.of_nat (Nat.min (read_calls st' - read_calls st) (length frames)))) ∧
  (opened = true → sampled_frames st' < K →
   read_calls st' = S (read_calls st + length frames)).
Proof.
  revert st; induction frames as [|frame frames IH]; intros st Hrun;
    cbn [sampling_loop] in Hrun.
  - destruct opened; [destruct (Z.ltb_spec (sampled_frames st) K)|];
      cbn [andb] in Hrun; injection Hrun as <-;
      cbn [read_calls frame_count submitted sampled_frames length];
      rewrite Nat.min_0_r; cbn; rewrite Z.add_0_r, app_nil_r;
      split_and!; try done; try lia.
  - destruct opened; [destruct (Z.ltb_spec (sampled_frames st) K) as [Hlt|Hge]|];
      cbn [andb] in Hrun.
    + destruct (loop_body s w interval dn frame _) as [st1|] eqn:Hbody; [|done].
      rewrite bind_Ok in Hrun.
      destruct (loop_body_cases s w interval dn _ _ _ Hbody) as (Hfc & Hrc & Hsub & _).
      cbn [frame_count read_calls submitted] in Hfc, Hrc, Hsub.
      destruct (IH st1 Hrun) as (Hle & Hfc' & Hsub' & Hall).
      rewrite Hrc in Hle, Hfc', Hsub', Hall. rewrite Hfc in Hfc', Hsub'. rewrite Hsub in Hsub'.
      replace (Nat.min (read_calls st' - read_calls st) (length (frame :: frames)))
        with (S (Nat.min (read_calls st' - S (read_calls st)) (length frames)))
        by (cbn [length]; lia).
      split_and!; [lia|lia| |].
      * rewrite Hsub', selected_positions_S.
        destruct (frame_count st mod interval =? 0); [by rewrite <- app_assoc|done].
      * intros Hop Hlow. rewrite (Hall Hop Hlow). cbn [length]. lia.
    + injection Hrun as <-. rewrite Nat.sub_diag. cbn.
      rewrite Z.add_0_r, app_nil_r. split_and!; try done. lia.
    + injection Hrun as <-. rewrite Nat.sub_diag. cbn.
      rewrite Z.add_0_r, app_nil_r. by split_and!.
Qed.

(** C6. The sampling interval is [max(1, total_frames // frames_per_sample)].
    The frames that were decoded are those that the calls of [cap.read()]
    returned, and [frame_count] counts them; the positions submitted to the
    detector are, in order and once each, exactly the decoded positions that
    are multiples of the interval.  On an open capture of a recognized,
    non-empty file the loop ends below the target only after a read has
    failed, that is, after every frame was decoded. *)
Theorem process_video_sampling v (s K w : Z) :
  K ≠ 0 → 0 ≤ w → poses_complete (cap_frames v) →
  ∃ st, process_video_run v s K w = Ok st ∧
    frame_count st = Z.of_nat (Nat.min (read_calls st) (length (cap_frames v))) ∧
    frame_count st ≤ Z.of_nat (length (cap_frames v)) ∧
    submitted st
    = List.filter (λ p, p mod Z.max 1 (cap_frame_count v / K) =? 0)
        (seqZ 0 (Z.of_nat (Nat.min (read_calls st) (length (cap_frames v))))) ∧
    (∀ p, p ∈ submitted st ↔
          0 ≤ p < Z.of_nat (Nat.min (read_calls st) (length (cap_frames v))) ∧
          p mod Z.max 1 (cap_frame_count v / K) = 0) ∧
    (cap_frame_count v ≠ 0 →
     extract_dance_name (basename (video_path v)) VALID_DANCE_NAMES ≠ "unknown" →
     cap_isOpened v = true → sampled_frames st < K →
     read_calls st = S (length (cap_frames v)) ∧
     frame_count st = Z.of_nat (length (cap_frames v))).
Proof.
  intros HK Hw Hposes.
  destruct (process_video_run_Ok v s K w HK Hw Hposes) as (st & Hrun & Hinv & _ & Hfc & _).
  exists st. split; [done|].
  assert (Hreads :
    frame_count st = Z.of_nat (Nat.min (read_calls st) (length (cap_frames v))) ∧
    submitted st
    = List.filter (λ p, p mod Z.max 1 (cap_frame_count v / K) =? 0)
        (seqZ 0 (Z.of_nat (Nat.min (read_calls st) (length (cap_frames v))))) ∧
    (cap_frame_count v ≠ 0 →
     extract_dance_name (basename (video_path v)) VALID_DANCE_NAMES ≠ "unknown" →
     cap_isOpened v = true → sampled_frames st < K →
     read_calls st = S (length (cap_frames v)))).
  { unfold process_video_run in Hrun.
    destruct (Z.eqb_spec (cap_frame_count v) 0) as [Hz|Hnz];
      [by injection Hrun as <-|].
    unfold floordiv in Hrun. rewrite (proj2 (Z.eqb_neq K 0) HK), bind_Ok in Hrun.
    destruct (String.eqb_spec
      (extract_dance_name (basename (video_path v)) VALID_DANCE_NAMES) "unknown")
      as [Hu|Hk]; [by injection Hrun as <-|].
    unfold deque_new in Hrun. rewrite (proj2 (Z.ltb_ge w 0) Hw), bind_Ok in Hrun.
    apply sampling_loop_reads in Hrun as (_ & Hfc' & Hsub & Hall).
    cbn [read_calls frame_count submitted] in Hfc', Hsub, Hall.
    rewrite Nat.sub_0_r in Hfc', Hsub. rewrite Z.add_0_l in Hfc'.
    rewrite app_nil_l in Hsub.
    split_and!; [done|done|]. intros _ _ Hop Hlow. by apply Hall. }
  destruct Hreads as (Hcount & Hsub & Hall).
  split_and!; [done|done|done| |].
  - intros p. rewrite <- Hcount. apply Hinv.
  - intros Htotal Hknown Hop Hlow. specialize (Hall Htotal Hknown Hop Hlow).
    split; [done|]. rewrite Hcount, Hall. lia.
Qed.

End Sampling.

(** ** The batch driver *)

Section MainProperties.
Context {F : Type} {PF : PyFloat F}.
Implicit Types (e : DirEntry F) (fs : FileSystem F) (row : FrameDict F).

Lemma main_step_inv (all_data : list (FrameDict F)) (n : Z) e acc' :
  main_step (all_data, n) e = Ok acc' →
  ∃ recs, process_entry e n = Ok recs ∧ acc' = (all_data ++ recs, n + 1).
Proof.
  unfold main_step, process_entry.
  destruct (process_video _ n 96 5) as [recs|]; [|done]. rewrite bind_Ok.
  intros [= <-]. exists recs. split; [done|].
  destruct recs; [by rewrite app_nil_r|done].
Qed.

(** The loop over the video files: what it has collected when it ends is
    the concatenation, in the order of the files, of what [process_video]
    returned for each, the [i]-th file being sample [n + i]. *)
Lemma main_loop_inv (files : list (DirEntry F)) (all_data : list (FrameDict F)) (n : Z) acc' :
  foldM main_step (all_data, n) files = Ok acc' →
  ∃ per_video : list (list (FrameDict F)),
    length per_video = length files ∧
    (∀ (i : nat) e recs, files !! i = Some e → per_video !! i = Some recs →
       process_entry e (n + Z.of_nat i) = Ok recs) ∧
    acc' = (all_data ++ concat per_video, n + Z.of_nat (length files)).
Proof.
  revert all_data n; induction files as [|e files IH]; intros all_data n Hrun;
    cbn [foldM] in Hrun.
  - injection Hrun as <-. exists []. split_and!; [done|done|].
    simpl. by rewrite app_nil_r, Z.add_0_r.
  - destruct (main_step (all_data, n) e) as [acc1|] eqn:Hstep; [|done].
    rewrite bind_Ok in Hrun.
    apply main_step_inv in Hstep as (recs & Hrecs & ->).
    apply IH in Hrun as (per_video & Hlen & Hall & ->).
    exists (recs :: per_video). split_and!.
    + simpl. by rewrite Hlen.
    + intros [|i] e' recs' He Hr; simpl in He, Hr.
      * injection He as <-. injection Hr as <-. by rewrite Z.add_0_r.
      * replace (n + Z.of_nat (S i)) with (n + 1 + Z.of_nat i) by lia. by eapply Hall.
    + simpl. rewrite <- app_assoc. f_equal. lia.
Qed.

Lemma main_inv fs listing out :
  video_directory_listing fs = Some listing → main fs = Ok out →
  ∃ per_video : list (list (FrameDict F)),
    length per_video = length (video_files listing) ∧
    (∀ (i : nat) e recs,
       video_files listing !! i = Some e → per_video !! i = Some recs →
       process_entry e (Z.of_nat i + 1) = Ok recs) ∧
    csv_rows out
    = match concat per_video with [] => None | _ :: _ => Some (concat per_video) end ∧
    exited out = false ∧
    makedirs_called out = negb (output_directory_exists fs).
Proof.
  intros Hl. unfold main. rewrite Hl.
  destruct (foldM main_step ([], 1) (video_files listing)) as [acc|] eqn:Hrun; [|done].
  rewrite bind_Ok. intros [= <-].
  apply main_loop_inv in Hrun as (per_video & Hlen & Hall & ->).
  exists per_video. split_and!; try done.
  intros i e recs He Hr. rewrite Z.add_comm. by eapply Hall.
Qed.


(** X19. What [main] writes.  When [main] returns on an existing video
    directory, the rows it hands to [to_csv] are the concatenation, in
    listing order, of what [process_video] returned for each selected video
    file, the [i]-th of them (from 0) processed as sample [i + 1] with
    targets 96 and 5; no CSV is written exactly when that concatenation is
    empty.  A file for which [process_video] returns nothing still uses up a
    sample number. *)
Theorem main_rows_by_video fs listing out :
  video_directory_listing fs = Some listing → main fs = Ok out →
  ∃ per_video : list (list (FrameDict F)),
    length per_video = length (video_files listing) ∧
    (∀ (i : nat) e recs,
       video_files listing !! i = Some e → per_video !! i = Some recs →
       process_video (open_capture (path_join "sample_data" (entry_name e)) e)
         (Z.of_nat i + 1) 96 5 = Ok recs) ∧
    csv_rows out
    = match concat per_video with [] => None | _ :: _ => Some (concat per_video) end ∧
    exited out = false.
Proof.
  intros Hl Hmain.
  destruct (main_inv fs listing out Hl Hmain) as (per_video & ? & ? & ? & ? & _).
  by exists per_video.
Qed.

(** Every row of the CSV comes from one selected video file. *)
Lemma main_row_origin fs listing out rows row :
  video_directory_listing fs = Some listing → main fs = Ok out →
  csv_rows out = Some rows → row ∈ rows →
  ∃ (i : nat) e recs,
    video_files listing !! i = Some e ∧
    process_entry e (Z.of_nat i + 1) = Ok recs ∧ row ∈ recs.
Proof.
  intros Hl Hmain Hrows Hrow.
  destruct (main_inv fs listing out Hl Hmain) as (per_video & Hlen & Hall & Hcsv & _).
  rewrite Hrows in Hcsv.
  assert (rows = concat per_video) as ->.
  { destruct (concat per_video); [done|by injection Hcsv]. }
  apply list_elem_of_In, in_concat in Hrow
    as (recs & Hrecs%list_elem_of_In & Hin%list_elem_of_In).
  apply list_elem_of_lookup in Hrecs as [i Hi].
  destruct (lookup_lt_is_Some_2 (video_files listing) i) as [e He].
  { rewrite <- Hlen. by eapply lookup_lt_Some. }
  exists i, e, recs. split_and!; [done|by eapply Hall|done].
Qed.

(** X20. Every row of the CSV carries as [sample_number] the 1-based
    position of its video among the selected files of the listing, and as
    [dance_name] the vocabulary entry recognized in that file's name, which
    is never ["unknown"]: files with an unrecognized name contribute no
    row. *)
Theorem main_row_metadata fs listing out rows :
  video_directory_listing fs = Some listing →
  Forall (λ e, contains "/" (entry_name e) = false) listing →
  main fs = Ok out → csv_rows out = Some rows →
  rows ≠ [] ∧
  Forall (λ row, ∃ (i : nat) e,
    video_files listing !! i = Some e ∧
    sample_number row = Z.of_nat i + 1 ∧
    dance_name row = extract_dance_name (entry_name e) VALID_DANCE_NAMES ∧
    dance_name row ∈ VALID_DANCE_NAMES) rows.
Proof.
  intros Hl Hnames Hmain Hrows. split.
  { destruct (main_inv fs listing out Hl Hmain) as (per_video & _ & _ & Hcsv & _).
    rewrite Hrows in Hcsv. destruct (concat per_video); [done|].
    injection Hcsv as ->. done. }
  apply Forall_forall. intros row Hrow.
  destruct (main_row_origin fs listing out rows row Hl Hmain Hrows Hrow)
    as (i & e & recs & He & Hrecs & Hin).
  exists i, e. split; [done|].
  apply process_video_data_inv in Hrecs as (st & Hrun & ->).
  apply process_video_run_meta in Hrun.
  destruct (proj1 (Forall_forall _ _) Hrun row Hin) as (Hs & Hd & Hknown).
  cbn [video_path open_capture] in Hd.
  assert (Hname : contains "/" (entry_name e) = false).
  { apply list_elem_of_lookup_2 in He. unfold video_files in He.
    apply list_elem_of_In, filter_In in He as [He%list_elem_of_In _].
    by apply (proj1 (Forall_forall _ _) Hnames). }
  rewrite (basename_join _ _ Hname) in Hd. split_and!; [done|done|].
  destruct (extract_dance_name_cases (entry_name e) VALID_DANCE_NAMES)
    as [[Hu _]|(dance & Hdance & He' & _)]; [congruence|].
  rewrite Hd, He'. unfold VALID_DANCE_NAMES in Hdance |- *.
  repeat (apply elem_of_cons in Hdance as [->|Hdance]; [set_solver|]).
  by apply elem_of_nil in Hdance.
Qed.


Lemma constant_sample_sorted (n : Z) (recs : list (FrameDict F)) :
  Forall (λ row, sample_number row = n) recs →
  StronglySorted (λ r1 r2, sample_number r1 ≤ sample_number r2) recs.
Proof.
  induction 1 as [|row recs Hrow Hrecs IH]; constructor; [done|].
  eapply Forall_impl; [exact Hrecs|]. intros r Hr. simpl in *. lia.
Qed.

Lemma main_loop_sorted (files : list (DirEntry F)) (all_data : list (FrameDict F)) (n : Z) acc' :
  foldM main_step (all_data, n) files = Ok acc' →
  StronglySorted (λ r1 r2, sample_number r1 ≤ sample_number r2) all_data →
  Forall (λ row, sample_number row < n) all_data →
  StronglySorted (λ r1 r2, sample_number r1 ≤ sample_number r2) (fst acc').
Proof.
  revert all_data n; induction files as [|e files IH]; intros all_data n Hrun Hsorted Hlt;
    cbn [foldM] in Hrun; [by injection Hrun as <-|].
  destruct (main_step (all_data, n) e) as [acc1|] eqn:Hstep; [|done].
  rewrite bind_Ok in Hrun.
  apply main_step_inv in Hstep as (recs & Hrecs & ->).
  apply process_video_data_inv in Hrecs as (st & Hst & ->).
  apply process_video_run_meta in Hst.
  assert (Hn : Forall (λ row, sample_number row = n) (data st)).
  { eapply Forall_impl; [exact Hst|]. by intros row (? & _). }
  apply (IH _ _ Hrun).
  - apply StronglySorted_app_2; [|done|by apply (constant_sample_sorted n)].
    intros r1 r2 H1 H2.
    pose proof (proj1 (Forall_forall _ _) Hlt r1 H1) as Hr1.
    pose proof (proj1 (Forall_forall _ _) Hn r2 H2) as Hr2. simpl in *. lia.
  - apply Forall_app. split.
    + eapply Forall_impl; [exact Hlt|]. intros r Hr. simpl in *. lia.
    + eapply Forall_impl; [exact Hn|]. intros r Hr. simpl in *. lia.
Qed.

(** X22. The rows of the CSV are grouped by sample, in increasing order
    of the sample number: a row never precedes a row of a smaller sample. *)
Theorem main_rows_sorted fs out rows :
  main fs = Ok out → csv_rows out = Some rows →
  StronglySorted (λ r1 r2, sample_number r1 ≤ sample_number r2) rows.
Proof.
  unfold main. destruct (video_directory_listing fs) as [listing|];
    [|by intros [= <-]].
  destruct (foldM main_step ([], 1) (video_files listing)) as [acc|] eqn:Hrun; [|done].
  rewrite bind_Ok. intros [= <-]. cbn [csv_rows]. intros Hrows.
  apply main_loop_sorted in Hrun; [|by constructor|by constructor].
  destruct (fst acc); [done|]. by injection Hrows as <-.
Qed.

End MainProperties.

(** ** The records of a video without a missing detection *)

Section SlidingMeans.
Context {F : Type} {PF : PyFloat F}.
Implicit Types (v : Video F) (st : LoopState F).

Lemma detected_raws_app (interval pos : Z) (l1 l2 : list (option (list (Landmark F)))) :
  detected_raws interval pos (l1 ++ l2)
  = detected_raws interval pos l1
    ++ detected_raws interval (pos + Z.of_nat (length l1)) l2.
Proof.
  revert pos; induction l1 as [|frame l1 IH]; intros pos; cbn [detected_raws app length].
  - by rewrite Z.add_0_r.
  - replace (pos + Z.of_nat (S (length l1))) with (pos + 1 + Z.of_nat (length l1)) by lia.
    destruct frame as [lms|]; [destruct (pos mod interval =? 0)|]; by rewrite IH.
Qed.

(** A bounded deque that held the last [w] of a sequence holds, after an
    append, the last [w] of the longer sequence. *)
Lemma deque_append_last {A : Type} (w : Z) (l : list A) (x : A) :
  0 < w →
  deque_append w (drop (length l - Z.to_nat w) l) x
  = drop (length (l ++ [x]) - Z.to_nat w) (l ++ [x]).
Proof.
  intros Hw. unfold deque_append.
  rewrite !length_app, length_drop. cbn [length].
  destruct (w <? _) eqn:E.
  - apply Z.ltb_lt in E.
    rewrite drop_app_le by (rewrite length_drop; lia).
    rewrite drop_drop, (drop_app_le l [x]) by lia. f_equal. f_equal. lia.
  - apply Z.ltb_ge in E.
    replace (length l - Z.to_nat w)%nat with 0%nat by lia.
    replace (length l + 1 - Z.to_nat w)%nat with 0%nat by lia. done.
Qed.

(** X23. What [process_video] computes on a video where the detector
    finds a pose on every frame.  When the function returns with a positive
    window, there is one record per submitted frame, and record [i] (from 0)
    is numbered [i + 1] and holds, key by key, the mean of the raw vectors of
    the submitted frames [i - smoothing_window + 1 .. i] (from the first one
    while fewer have been seen). *)
Theorem process_video_sliding_means v (s K w : Z) st :
  0 < w → Forall is_Some (cap_frames v) →
  process_video_run v s K w = Ok st →
  let raws := detected_raws (Z.max 1 (cap_frame_count v / K)) 0
                (take (Z.to_nat (frame_count st)) (cap_frames v)) in
  length (data st) = length raws ∧
  ∀ (i : nat) rec, data st !! i = Some rec →
    record_of_vector s (Z.of_nat i + 1)
      (extract_dance_name (basename (video_path v)) VALID_DANCE_NAMES)
      (naive_mean (drop (S i - Z.to_nat w) (take (S i) raws)) 132) rec.
Proof.
  intros Hw Hsome Hrun.
  set (interval := Z.max 1 (cap_frame_count v / K)).
  set (dn := extract_dance_name (basename (video_path v)) VALID_DANCE_NAMES).
  pose (raws_of := λ st : LoopState F,
    detected_raws interval 0 (take (Z.to_nat (frame_count st)) (cap_frames v))).
  enough (HP : 0 ≤ frame_count st ∧
    Forall (λ r, length r = 132%nat) (raws_of st) ∧
    frame_buffer st = drop (length (raws_of st) - Z.to_nat w) (raws_of st) ∧
    sampled_frames st = Z.of_nat (length (raws_of st)) ∧
    length (data st) = length (raws_of st) ∧
    ∀ (i : nat) rec, data st !! i = Some rec →
      record_of_vector s (Z.of_nat i + 1) dn
        (naive_mean (drop (S i - Z.to_nat w) (take (S i) (raws_of st))) 132) rec)
    by (destruct HP as (_ & _ & _ & _ & ? & ?); by split).
  revert Hrun.
  apply (process_video_run_invariant v s K w (λ st,
    0 ≤ frame_count st ∧
    Forall (λ r, length r = 132%nat) (raws_of st) ∧
    frame_buffer st = drop (length (raws_of st) - Z.to_nat w) (raws_of st) ∧
    sampled_frames st = Z.of_nat (length (raws_of st)) ∧
    length (data st) = length (raws_of st) ∧
    ∀ (i : nat) rec, data st !! i = Some rec →
      record_of_vector s (Z.of_nat i + 1) dn
        (naive_mean (drop (S i - Z.to_nat w) (take (S i) (raws_of st))) 132) rec)).
  - unfold raws_of. cbn. by split_and!.
  - done.
  - intros k frame st0 st1 Hk Hpos (H0 & Hlens & Hbuf & Hs & Hlen & Hrecs) _ Hbody.
    fold interval dn in Hbody.
    destruct (loop_body_cases _ _ _ _ _ _ _ Hbody) as (Hfc & _ & _ & Hkind).
    cbn [frame_count] in Hfc.
    destruct (proj1 (Forall_forall _ _) Hsome frame (list_elem_of_lookup_2 _ _ _ Hk))
      as [lms ->].
    assert (Hraws : raws_of st1
      = raws_of st0 ++ (if frame_count st0 mod interval =? 0
                        then [flat_map lm_coords (take 33 lms)] else [])).
    { unfold raws_of. rewrite Hfc, Hpos.
      replace (Z.to_nat (Z.of_nat k + 1)) with (S k) by lia. rewrite Nat2Z.id.
      rewrite (take_S_r _ _ _ Hk), detected_raws_app.
      rewrite length_take_le by (apply lookup_lt_Some in Hk; lia).
      by rewrite Z.add_0_l. }
    destruct Hkind as [[Hsel|[? _]] Hd Hs' Hb|lms' raw Hf Hsel Hlms -> Hb Hs' Hdata
                      |pre prev next new ? _ _ _ _ _ _ _ _]; try done.
    + rewrite (proj2 (Z.eqb_neq _ _) Hsel), app_nil_r in Hraws.
      rewrite Hraws, Hd, Hs', Hb. split_and!; try done. lia.
    + injection Hf as <-.
      rewrite (proj2 (Z.eqb_eq _ _) Hsel) in Hraws.
      set (raw := flat_map lm_coords (take 33 lms)) in *.
      assert (Hraw : length raw = 132%nat).
      { unfold raw. rewrite length_flat_coords, length_take_le by done. done. }
      assert (Hlens1 : Forall (λ r, length r = 132%nat) (raws_of st1)).
      { rewrite Hraws. apply Forall_app. split; [done|by apply Forall_singleton]. }
      assert (Hbuf1 : frame_buffer st1
                = drop (length (raws_of st1) - Z.to_nat w) (raws_of st1)).
      { rewrite Hb, Hbuf, Hraws. by apply deque_append_last. }
      destruct Hdata as [[Hnil _]|(sm & d & Hsm & Hd & Hdata)].
      { rewrite Hb in Hnil. by apply deque_append_nonempty in Hnil. }
      rewrite smooth_landmarks_within with (n := 132%nat) in Hsm.
      2:{ rewrite Hb. by apply deque_append_nonempty. }
      2:{ rewrite Hbuf1, length_drop. lia. }
      2:{ rewrite Hbuf1. by apply Forall_drop. }
      injection Hsm as <-.
      apply smoothed_fields_inv in Hd as (_ & _ & Hlook).
      assert (Hlen1 : length (raws_of st1) = S (length (raws_of st0))).
      { rewrite Hraws, length_app. simpl. lia. }
      split_and!; [lia|done|done|lia|rewrite Hdata, length_app; simpl; lia|].
      intros i rec Hi. rewrite Hdata in Hi.
      apply lookup_app_Some in Hi as [Hi|[Hge Hi]].
      * pose proof (lookup_lt_Some _ _ _ Hi) as Hlt.
        rewrite Hraws, take_app_le by lia. by apply Hrecs.
      * apply list_lookup_singleton_Some in Hi as [Hi <-].
        assert (i = length (raws_of st0)) as -> by lia.
        rewrite <- Hlen1, take_ge by lia. rewrite <- Hbuf1.
        split_and!; cbn [sample_number frame_number dance_name landmark]; [done|lia|done|].
        exact Hlook.
Qed.

End SlidingMeans.

(** ** Instances *)

Lemma smooth_landmarks_window_witness :
  (0 < 2 ≤ Z.of_nat (length DemoBatch.buffer3) ∧
   Forall (λ v, length v = 2%nat) DemoBatch.buffer3) ∧
  smooth_landmarks DemoBatch.buffer3 2
  = Ok (Some (naive_mean (drop 1 DemoBatch.buffer3) 2)).
Proof.
  assert (Hw : 0 < 2 ≤ Z.of_nat (length DemoBatch.buffer3)) by (simpl; lia).
  assert (Hall : Forall (λ v, length v = 2%nat) DemoBatch.buffer3) by (repeat constructor).
  split; [split; [exact Hw|exact Hall]|].
  exact (smooth_landmarks_window DemoBatch.buffer3 2 2 Hw Hall).
Defined.

Lemma smooth_landmarks_window_zero_witness :
  (DemoBatch.buffer3 ≠ [] ∧ Forall (λ v, length v = 2%nat) DemoBatch.buffer3) ∧
  smooth_landmarks DemoBatch.buffer3 0 = Ok (Some (naive_mean DemoBatch.buffer3 2)).
Proof.
  assert (Hne : DemoBatch.buffer3 ≠ []) by discriminate.
  assert (Hall : Forall (λ v, length v = 2%nat) DemoBatch.buffer3) by (repeat constructor).
  split; [split; [exact Hne|exact Hall]|].
  exact (smooth_landmarks_window_zero DemoBatch.buffer3 2 Hne Hall).
Defined.

Lemma extract_dance_name_first_witness :
  (is_ascii "Floss_Then_Griddy.mp4" ∧ Forall is_ascii ["laugh"] ∧ is_ascii "Floss" ∧
   (∀ d, d ∈ ["laugh"] → contains (lower d) (lower "Floss_Then_Griddy.mp4") = false) ∧
   contains (lower "Floss") (lower "Floss_Then_Griddy.mp4") = true) ∧
  extract_dance_name "Floss_Then_Griddy.mp4" (["laugh"] ++ "Floss" :: ["griddy"]) = "floss".
Proof.
  assert (Hf : is_ascii "Floss_Then_Griddy.mp4") by solve_keys.
  assert (Hb : Forall is_ascii ["laugh"]) by solve_keys.
  assert (Hd : is_ascii "Floss") by solve_keys.
  assert (Hno : ∀ d, d ∈ ["laugh"] →
            contains (lower d) (lower "Floss_Then_Griddy.mp4") = false).
  { intros d Hin. apply elem_of_cons in Hin as [->|Hin]; [reflexivity|].
    by apply elem_of_nil in Hin. }
  split; [split_and!; [exact Hf|exact Hb|exact Hd|exact Hno|reflexivity]|].
  exact (extract_dance_name_first "Floss_Then_Griddy.mp4" ["laugh"] "Floss" ["griddy"]
           Hf Hb Hd Hno eq_refl).
Defined.

Lemma extract_dance_name_ignores_case_witness :
  (is_ascii "GRIDDY_Take2.MP4" ∧ Forall is_ascii ["Floss"; "Griddy"]) ∧
  extract_dance_name (lower "GRIDDY_Take2.MP4") ["Floss"; "Griddy"] = "griddy" ∧
  extract_dance_name "GRIDDY_Take2.MP4" ["Floss"; "Griddy"] = "griddy" ∧
  extract_dance_name "GRIDDY_Take2.MP4" (lower <$> ["Floss"; "Griddy"]) = "griddy".
Proof.
  assert (Hf : is_ascii "GRIDDY_Take2.MP4") by solve_keys.
  assert (Hl : Forall is_ascii ["Floss"; "Griddy"]) by solve_keys.
  split; [split; [exact Hf|exact Hl]|].
  destruct (extract_dance_name_ignores_case "GRIDDY_Take2.MP4" ["Floss"; "Griddy"] Hf Hl)
    as [Hname Hlist].
  split; [reflexivity|]. split; [reflexivity|]. rewrite Hlist. reflexivity.
Defined.

Lemma basename_path_join_witness :
  contains "/" "Griddy_take2.mp4" = false ∧
  basename (path_join "sample_data" "Griddy_take2.mp4") = "Griddy_take2.mp4" ∧
  extract_dance_name (basename (path_join "sample_data" "Griddy_take2.mp4"))
    VALID_DANCE_NAMES
  = extract_dance_name "Griddy_take2.mp4" VALID_DANCE_NAMES.
Proof.
  split; [reflexivity|].
  exact (basename_path_join "sample_data" "Griddy_take2.mp4" eq_refl).
Defined.

Lemma process_video_argument_errors_witness :
  cap_frame_count Demo.v1 ≠ 0 ∧
  process_video Demo.v1 7 0 5 = Raise ZeroDivisionError ∧
  process_video Demo.v1 7 3 (-1) = Raise ValueError.
Proof.
  assert (Htotal : cap_frame_count Demo.v1 ≠ 0) by (vm_compute; discriminate).
  split; [exact Htotal|]. split.
  - exact (proj1 (process_video_argument_errors Demo.v1 7 0 5 Htotal) eq_refl).
  - apply (proj2 (proj2 (process_video_argument_errors Demo.v1 7 3 (-1) Htotal)));
      [lia|vm_compute; discriminate|lia].
Defined.

Lemma process_video_records_keys_witness :
  ∃ records, process_video Demo.v1 7 3 5 = Ok records ∧
    Forall (λ fr, ∀ key, is_Some (landmark fr !! key) ↔ key ∈ landmark_keys) records.
Proof.
  assert (Hok : match process_video Demo.v1 7 3 5 with Ok _ => True | Raise _ => False end)
    by (vm_compute; exact I).
  destruct (process_video Demo.v1 7 3 5) as [records|] eqn:Hrun; [|destruct Hok].
  exists records. split; [reflexivity|].
  exact (process_video_records_keys Demo.v1 7 3 5 records Hrun).
Defined.

Lemma process_video_frame_number_range_witness :
  ∃ st, process_video_run Demo.v1 7 3 5 = Ok st ∧
    0 ≤ sampled_frames st ∧
    Forall (λ fr, 1 ≤ frame_number fr ≤ Z.min (sampled_frames st) 3) (data st).
Proof.
  assert (Hok : match process_video_run Demo.v1 7 3 5 with
                 | Ok _ => True | Raise _ => False end) by (vm_compute; exact I).
  destruct (process_video_run Demo.v1 7 3 5) as [st|] eqn:Hrun; [|destruct Hok].
  exists st. split; [reflexivity|].
  exact (process_video_frame_number_range Demo.v1 7 3 5 st Hrun).
Defined.

Lemma process_video_window_zero_witness :
  (3 ≠ 0 ∧ poses_complete (cap_frames Demo.v1)) ∧ process_video Demo.v1 7 3 0 = Ok [].
Proof.
  assert (Hposes : poses_complete (cap_frames Demo.v1)) by solve_poses.
  split; [split; [lia|exact Hposes]|].
  apply (process_video_window_zero Demo.v1 7 3); [lia|exact Hposes].
Defined.

Lemma process_video_no_pose_witness :
  (3 ≠ 0 ∧ 0 ≤ 5 ∧ Forall (λ frame, frame = None) (cap_frames DemoBatch.v_none)) ∧
  ∃ st, process_video_run DemoBatch.v_none 7 3 5 = Ok st ∧
    process_video DemoBatch.v_none 7 3 5 = Ok [] ∧ frame_count st = 2.
Proof.
  assert (Hnone : Forall (λ frame, frame = None) (cap_frames DemoBatch.v_none))
    by (repeat constructor).
  split; [split_and!; [lia|lia|exact Hnone]|].
  destruct (process_video_no_pose DemoBatch.v_none 7 3 5) as (st & Hrun & Hret & _ & _ & Hall);
    [lia|lia|exact Hnone|].
  exists st. split_and!; [exact Hrun|exact Hret|].
  apply Hall; [lia|vm_compute; discriminate|reflexivity|vm_compute; discriminate].
Defined.

Lemma process_video_submitted_complete_witness :
  ∃ st, process_video_run Demo.v1 7 3 5 = Ok st ∧
    Z.of_nat 1 ∈ submitted st ∧
    cap_frames Demo.v1 !! 1%nat = Some (Some (Demo.pose 1000)) ∧
    (33 ≤ length (Demo.pose 1000))%nat.
Proof.
  assert (Hsub : match process_video_run Demo.v1 7 3 5 with
                  | Ok st => submitted st = [0; 1; 2] | Raise _ => False end)
    by (vm_compute; reflexivity).
  destruct (process_video_run Demo.v1 7 3 5) as [st|] eqn:Hrun; [|destruct Hsub].
  assert (Hin : Z.of_nat 1 ∈ submitted st)
    by (rewrite Hsub; apply elem_of_cons; right; apply elem_of_cons; by left).
  exists st. split_and!; [reflexivity|exact Hin|reflexivity|].
  exact (process_video_submitted_complete Demo.v1 7 3 5 st Hrun 1%nat (Demo.pose 1000)
           Hin eq_refl).
Defined.

Lemma main_rows_by_video_witness :
  video_directory_listing DemoBatch.fs = Some DemoBatch.listing ∧
  ∃ out, main DemoBatch.fs = Ok out ∧
    ∃ per_video : list (list (FrameDict Q)),
      length per_video = length (video_files DemoBatch.listing) ∧
      (∀ (i : nat) e recs,
         video_files DemoBatch.listing !! i = Some e → per_video !! i = Some recs →
         process_video (open_capture (path_join "sample_data" (entry_name e)) e)
           (Z.of_nat i + 1) 96 5 = Ok recs) ∧
      csv_rows out
      = match concat per_video with [] => None | _ :: _ => Some (concat per_video) end ∧
      exited out = false.
Proof.
  split; [reflexivity|].
  assert (Hok : match main DemoBatch.fs with Ok _ => True | Raise _ => False end)
    by (vm_compute; exact I).
  destruct (main DemoBatch.fs) as [out|] eqn:Hmain; [|destruct Hok].
  exists out. split; [reflexivity|].
  exact (main_rows_by_video DemoBatch.fs DemoBatch.listing out eq_refl Hmain).
Defined.

Lemma main_row_metadata_witness :
  (video_directory_listing DemoBatch.fs = Some DemoBatch.listing ∧
   Forall (λ e, contains "/" (entry_name e) = false) DemoBatch.listing) ∧
  ∃ out rows, main DemoBatch.fs = Ok out ∧ csv_rows out = Some rows ∧
    rows ≠ [] ∧
    Forall (λ row, ∃ (i : nat) e,
      video_files DemoBatch.listing !! i = Some e ∧
      sample_number row = Z.of_nat i + 1 ∧
      dance_name row = extract_dance_name (entry_name e) VALID_DANCE_NAMES ∧
      dance_name row ∈ VALID_DANCE_NAMES) rows.
Proof.
  assert (Hnames : Forall (λ e : DirEntry Q, contains "/" (entry_name e) = false)
            DemoBatch.listing) by (repeat constructor).
  split; [split; [reflexivity|exact Hnames]|].
  assert (Hok : match main DemoBatch.fs with
                 | Ok out => match csv_rows out with Some _ => True | None => False end
                 | Raise _ => False
                 end) by (vm_compute; exact I).
  destruct (main DemoBatch.fs) as [out|] eqn:Hmain; [|destruct Hok].
  destruct (csv_rows out) as [rows|] eqn:Hrows; [|destruct Hok].
  exists out, rows. split_and!; [reflexivity|exact Hrows|..];
    apply (main_row_metadata DemoBatch.fs DemoBatch.listing out rows eq_refl Hnames
             Hmain Hrows).
Defined.


Lemma main_rows_sorted_witness :
  ∃ out rows, main DemoBatch.fs = Ok out ∧ csv_rows out = Some rows ∧
    StronglySorted (λ r1 r2, sample_number r1 ≤ sample_number r2) rows.
Proof.
  assert (Hok : match main DemoBatch.fs with
                 | Ok out => match csv_rows out with Some _ => True | None => False end
                 | Raise _ => False
                 end) by (vm_compute; exact I).
  destruct (main DemoBatch.fs) as [out|] eqn:Hmain; [|destruct Hok].
  destruct (csv_rows out) as [rows|] eqn:Hrows; [|destruct Hok].
  exists out, rows. split_and!; [reflexivity|exact Hrows|].
  exact (main_rows_sorted DemoBatch.fs out rows Hmain Hrows).
Defined.

Lemma process_video_sliding_means_witness :
  (0 < 2 ∧ Forall is_Some (cap_frames DemoBatch.v_all)) ∧
  ∃ st, process_video_run DemoBatch.v_all 7 3 2 = Ok st ∧
    length (data st)
    = length (detected_raws (Z.max 1 (cap_frame_count DemoBatch.v_all / 3)) 0
                (take (Z.to_nat (frame_count st)) (cap_frames DemoBatch.v_all))).
Proof.
  assert (Hsome : Forall is_Some (cap_frames DemoBatch.v_all))
    by (repeat (apply Forall_cons_2; [by eexists|]); apply Forall_nil_2).
  split; [split; [lia|exact Hsome]|].
  assert (Hok : match process_video_run DemoBatch.v_all 7 3 2 with
                 | Ok _ => True | Raise _ => False end) by (vm_compute; exact I).
  destruct (process_video_run DemoBatch.v_all 7 3 2) as [st|] eqn:Hrun; [|destruct Hok].
  exists st. split; [reflexivity|].
  exact (proj1 (process_video_sliding_means DemoBatch.v_all 7 3 2 st ltac:(lia) Hsome Hrun)).
Defined.

Lemma process_video_numbered_all_detected_witness :
  (3 ≠ 0 ∧ 0 < 5 ∧ poses_complete (cap_frames DemoBatch.v_all) ∧
   Forall is_Some (cap_frames DemoBatch.v_all)) ∧
  ∃ records, process_video DemoBatch.v_all 7 3 5 = Ok records ∧ numbered records.
Proof.
  assert (Hposes : poses_complete (cap_frames DemoBatch.v_all)) by solve_poses.
  assert (Hsome : Forall is_Some (cap_frames DemoBatch.v_all))
    by (repeat (apply Forall_cons_2; [by eexists|]); apply Forall_nil_2).
  split; [split_and!; [lia|lia|exact Hposes|exact Hsome]|].
  apply (process_video_numbered_all_detected DemoBatch.v_all 7 3 5);
    [lia|lia|exact Hposes|exact Hsome].
Defined.

Lemma process_video_sampling_witness :
  (2 ≠ 0 ∧ 0 ≤ 5 ∧ poses_complete (cap_frames Demo.v_gap)) ∧
  Z.max 1 (cap_frame_count Demo.v_gap / 2) = 2 ∧
  ∃ st, process_video_run Demo.v_gap 7 2 5 = Ok st ∧
    read_calls st = 5%nat ∧ frame_count st = 4 ∧ submitted st = [0; 2].
Proof.
  assert (Hposes : poses_complete (cap_frames Demo.v_gap)) by solve_poses.
  split; [split_and!; [lia|lia|exact Hposes]|]. split; [reflexivity|].
  assert (Hlow : match process_video_run Demo.v_gap 7 2 5 with
                 | Ok st => sampled_frames st < 2 | Raise _ => False end)
    by (vm_compute; reflexivity).
  destruct (process_video_sampling Demo.v_gap 7 2 5) as (st & Hrun & _ & _ & Hsub & _ & Hall);
    [lia|lia|exact Hposes|].
  rewrite Hrun in Hlow.
  destruct Hall as [Hreads Hcount];
    [vm_compute; discriminate|vm_compute; discriminate|reflexivity|exact Hlow|].
  exists st. split; [exact Hrun|]. split; [exact Hreads|]. split; [exact Hcount|].
  rewrite Hsub, Hreads. reflexivity.
Defined.
